(** * blocky: the DNS proxy's server package (server/server.go)

  A shallow embedding of [server.go]: pipeline assembly ([NewServer],
  [createParallelUpstreamResolver]), the diagnostics walk
  ([printConfiguration]) and the request boundary ([OnRequest],
  [resolveClientIP]).

  Go pointers to resolver stages are addresses into an append-only heap,
  so that linking a stage to its successor is a mutation of a shared
  object and the chain is a graph that has to be shown acyclic, not a
  nested value that is acyclic by construction. *)

From Stdlib Require Import ZArith Lia.
From stdpp Require Import base option list gmap strings pretty.

Open Scope string_scope.
Open Scope list_scope.

(** ** Go's [net] package: peer addresses *)
Module net.

(** [net.IP] is a byte slice; [None] is the nil slice. *)
Definition IP : Type := option (list Byte.byte).

(** The dynamic types behind the [net.Addr] interface. *)
Inductive Addr :=
| UDPAddr (ip : IP) (port : Z) (zone : string)
| TCPAddr (ip : IP) (port : Z) (zone : string)
| IPAddr (ip : IP) (zone : string)
| UnixAddr (name : string) (net : string).

End net.

(** ** The DNS library (github.com/miekg/dns): messages *)
Module dns.

Record MsgHdr := {
  Id : Z;
  Response : bool;
  Opcode : Z;
  Authoritative : bool;
  Truncated : bool;
  RecursionDesired : bool;
  RecursionAvailable : bool;
  Zero : bool;
  AuthenticatedData : bool;
  CheckingDisabled : bool;
  Rcode : Z
}.

Record Question := { Name : string; Qtype : Z; Qclass : Z }.

(** A resource record: header and type-specific data in presentation form. *)
Record RR := {
  RR_Name : string; Rrtype : Z; Class : Z; Ttl : Z; Rdata : string
}.

Record Msg := {
  Hdr : MsgHdr;
  Compress : bool;
  Questions : list Question;
  Answer : list RR;
  Ns : list RR;
  Extra : list RR
}.

Definition OpcodeQuery : Z := 0.
Definition RcodeSuccess : Z := 0.
Definition RcodeServerFailure : Z := 2.

(** [new(Msg)]: the zero message. *)
Definition zeroHdr : MsgHdr :=
  {| Id := 0; Response := false; Opcode := 0; Authoritative := false;
     Truncated := false; RecursionDesired := false;
     RecursionAvailable := false; Zero := false;
     AuthenticatedData := false; CheckingDisabled := false; Rcode := 0 |}.

Definition newMsg : Msg :=
  {| Hdr := zeroHdr; Compress := false; Questions := [];
     Answer := []; Ns := []; Extra := [] |}.

Definition set_RecursionAvailable (ra : bool) (h : MsgHdr) : MsgHdr :=
  {| Id := Id h; Response := Response h; Opcode := Opcode h;
     Authoritative := Authoritative h; Truncated := Truncated h;
     RecursionDesired := RecursionDesired h;
     RecursionAvailable := ra; Zero := Zero h;
     AuthenticatedData := AuthenticatedData h;
     CheckingDisabled := CheckingDisabled h; Rcode := Rcode h |}.

Definition set_Hdr (h : MsgHdr) (m : Msg) : Msg :=
  {| Hdr := h; Compress := Compress m; Questions := Questions m;
     Answer := Answer m; Ns := Ns m; Extra := Extra m |}.

(** [Msg.SetReply]: turn the zero message into a reply to [request]. *)
Definition SetReply (request : Msg) (m : Msg) : Msg :=
  let rq := Hdr request in
  let query := Z.eqb (Opcode rq) OpcodeQuery in
  {| Hdr :=
       {| Id := Id rq; Response := true; Opcode := Opcode rq;
          Authoritative := Authoritative (Hdr m);
          Truncated := Truncated (Hdr m);
          RecursionDesired :=
            if query then RecursionDesired rq else RecursionDesired (Hdr m);
          RecursionAvailable := RecursionAvailable (Hdr m);
          Zero := Zero (Hdr m);
          AuthenticatedData := AuthenticatedData (Hdr m);
          CheckingDisabled :=
            if query then CheckingDisabled rq else CheckingDisabled (Hdr m);
          Rcode := RcodeSuccess |};
     Compress := Compress m;
     Questions :=
       match Questions request with
       | q :: _ => [q]
       | [] => Questions m
       end;
     Answer := Answer m; Ns := Ns m; Extra := Extra m |}.

(** [Msg.SetRcode]: a reply to [request] carrying [rcode]. *)
Definition SetRcode (request : Msg) (rcode : Z) (m : Msg) : Msg :=
  let m' := SetReply request m in
  let h := Hdr m' in
  set_Hdr
    {| Id := Id h; Response := Response h; Opcode := Opcode h;
       Authoritative := Authoritative h; Truncated := Truncated h;
       RecursionDesired := RecursionDesired h;
       RecursionAvailable := RecursionAvailable h; Zero := Zero h;
       AuthenticatedData := AuthenticatedData h;
       CheckingDisabled := CheckingDisabled h; Rcode := rcode |} m'.

(** What a [ResponseWriter] exposes to a handler: the peer's address, and
    the error (if any) with which the transport answers a [WriteMsg]. *)
Record ResponseWriter := {
  RemoteAddr : net.Addr;
  WriteMsgErr : option string
}.

(** The handlers a [ServeMux] can hold; this program registers one. *)
Inductive Handler := HandlerOnRequest.

(** [ServeMux]: zone pattern to handler. *)
Definition NewServeMux : gmap string Handler := ∅.
Definition HandleFunc (pattern : string) (h : Handler)
    (mux : gmap string Handler) : gmap string Handler :=
  <[pattern := h]> mux.

(** [dns.Server]; [NotifyStartedFunc] is kept as the line it logs. *)
Record Server := {
  Addr : string;
  Net : string;
  Handler_ : gmap string Handler;
  NotifyStarted : string;
  UDPSize : Z
}.

End dns.

(** ** logrus: structured log entries *)
Module logrus.

Inductive Value :=
| VString (s : string)
| VIP (ip : net.IP).

Inductive Level := Debug | Info | Error.

(** [logrus.Fields] / the data of a [*logrus.Entry]. *)
Definition WithField (k : string) (v : Value) : gmap string Value :=
  {[ k := v ]}.

End logrus.

(** ** The configuration package (blocky/config)

  [server.go] only passes its values on, so the per-stage blocks and
  the upstream target are parameters. *)
Module config.

Class Types := {
  Upstream : Type;
  ClientLookupConfig : Type;
  QueryLogConfig : Type;
  ConditionalUpstreamConfig : Type;
  CustomDNSConfig : Type;
  BlockingConfig : Type
}.

Section Config.
Context `{Types}.

Record UpstreamConfig := { ExternalResolvers : list Upstream }.

Record Config := {
  Port : Z;
  ClientLookup : ClientLookupConfig;
  QueryLog : QueryLogConfig;
  Conditional : ConditionalUpstreamConfig;
  CustomDNS : CustomDNSConfig;
  Blocking : BlockingConfig;
  Upstream_ : UpstreamConfig
}.
End Config.

End config.

(** ** Helper package (blocky/util), taken as a parameter *)
Module util.

Class Funcs := {
  QuestionToString : list dns.Question → string
}.

End util.

(** ** The resolver package (blocky/resolver)

    [server.go] uses its stage constructors, the chain-link operations and
    the two capabilities [Resolver] and [ChainedResolver]. *)
Module resolver.
Section Resolver.
Context `{config.Types}.

(** A pointer to a stage: an index into the heap. *)
Definition loc : Type := nat.

(** A value of interface type [Resolver]; [None] is the nil interface. *)
Definition Resolver : Type := option loc.

(** Modelled from the spec: the stage objects.  "Chained-resolver
    capability: an extension letting a stage be linked to a successor";
    "each chained resolver holds at most one successor reference"; "a stage
    that is NOT chainable (e.g. the parallel best-resolver, which is
    inherently terminal) implements only the base Resolver capability";
    a terminal upstream resolver is "a stage with no successor".  The six
    policy and caching stages carry the successor link, the two network
    stages do not. *)
Inductive Object :=
| ClientNamesResolver (cfg : config.ClientLookupConfig) (next : Resolver)
| QueryLoggingResolver (cfg : config.QueryLogConfig) (next : Resolver)
| ConditionalUpstreamResolver (cfg : config.ConditionalUpstreamConfig)
    (next : Resolver)
| CustomDNSResolver (cfg : config.CustomDNSConfig) (next : Resolver)
| BlockingResolver (cfg : config.BlockingConfig) (next : Resolver)
| CachingResolver (next : Resolver)
| UpstreamResolver (upstream : config.Upstream)
| ParallelBestResolver (resolvers : list Resolver).

(** The type assertion [res.(ChainedResolver)] followed by [GetNext()]:
    [None] when the assertion fails, otherwise the successor. *)
Definition asChained (o : Object) : option Resolver :=
  match o with
  | ClientNamesResolver _ next
  | QueryLoggingResolver _ next
  | ConditionalUpstreamResolver _ next
  | CustomDNSResolver _ next
  | BlockingResolver _ next
  | CachingResolver next => Some next
  | UpstreamResolver _
  | ParallelBestResolver _ => None
  end.

(** The object after [Next(next)]; [None] when the stage has no link. *)
Definition withNext (next : Resolver) (o : Object) : option Object :=
  match o with
  | ClientNamesResolver cfg _ => Some (ClientNamesResolver cfg next)
  | QueryLoggingResolver cfg _ => Some (QueryLoggingResolver cfg next)
  | ConditionalUpstreamResolver cfg _ =>
      Some (ConditionalUpstreamResolver cfg next)
  | CustomDNSResolver cfg _ => Some (CustomDNSResolver cfg next)
  | BlockingResolver cfg _ => Some (BlockingResolver cfg next)
  | CachingResolver _ => Some (CachingResolver next)
  | UpstreamResolver _
  | ParallelBestResolver _ => None
  end.

(** Modelled from the spec: [Request], "client network address (origin
    IP), the original query message, and a logging/tracing context". *)
Record Request := {
  ClientIP : net.IP;
  Req : dns.Msg;
  Log : gmap string logrus.Value
}.

(** Modelled from the spec: [Response], "the resolved message plus optional
    provenance metadata".  [Res] is a pointer and may be nil. *)
Record Response := {
  Res : option dns.Msg;
  Reason : string
}.

(** The capabilities whose bodies live in the stages.  [Resolve] returns
    Go's pair of a response pointer and an error; [Configuration] and the
    [%s] rendering of a stage are reads without effect. *)
Class Behaviour := {
  Resolve : list Object → loc → Request → option Response * option string;
  Configuration : list Object → loc → list string;
  Sprint : list Object → loc → string
}.

(** *** Effects of the server package

    The trace records what [server.go] does to the outside: log lines,
    successor links it sets, requests it hands to the pipeline and the
    calls it makes on the response writer. *)
Inductive Event :=
| EvLog (fields : gmap string logrus.Value) (lvl : logrus.Level)
    (msg : string)
| EvNext (l : loc) (next : Resolver)
| EvResolve (l : loc) (r : Request)
| EvWriteMsg (m : dns.Msg)
| EvClose.

Record World := {
  heap : list Object;
  events : list Event
}.

Inductive Outcome (A : Type) :=
| Returns (a : A) (w : World)
| Panics (reason : string) (w : World)
| OutOfFuel.
Global Arguments Returns {A} a w.
Global Arguments Panics {A} reason w.
Global Arguments OutOfFuel {A}.

Definition M (A : Type) : Type := World → Outcome A.

Global Instance M_ret : MRet M := λ A a w, Returns a w.

Global Instance M_bind : MBind M := λ A B f m w,
  match m w with
  | Returns a w' => f a w'
  | Panics r w' => Panics r w'
  | OutOfFuel => OutOfFuel
  end.

Definition panic {A} (reason : string) : M A := λ w, Panics reason w.

Definition emit (e : Event) : M unit :=
  λ w, Returns () {| heap := heap w; events := events w ++ [e] |}.

Definition alloc (o : Object) : M loc :=
  λ w, Returns (List.length (heap w))
         {| heap := heap w ++ [o]; events := events w |}.

Definition load (l : loc) : M Object :=
  λ w, match heap w !! l with
       | Some o => Returns o w
       | None => Panics "invalid memory address" w
       end.

Definition store (l : loc) (o : Object) : M unit :=
  λ w, Returns () {| heap := <[l := o]> (heap w); events := events w |}.

Definition getHeap : M (list Object) := λ w, Returns (heap w) w.

End Resolver.

Section Stages.
Context `{config.Types}.

(** Modelled from the spec: the stage constructors.  Each returns a fresh
    stage built from its configuration block, not yet linked.  The spec
    has the parallel best-resolver compose a non-empty set of members;
    what its constructor does with an empty list is not said in
    [server.go], and here it allocates a stage all the same. *)
Definition NewClientNamesResolver (cfg : config.ClientLookupConfig) : M loc :=
  alloc (ClientNamesResolver cfg None).
Definition NewQueryLoggingResolver (cfg : config.QueryLogConfig) : M loc :=
  alloc (QueryLoggingResolver cfg None).
Definition NewConditionalUpstreamResolver
    (cfg : config.ConditionalUpstreamConfig) : M loc :=
  alloc (ConditionalUpstreamResolver cfg None).
Definition NewCustomDNSResolver (cfg : config.CustomDNSConfig) : M loc :=
  alloc (CustomDNSResolver cfg None).
Definition NewBlockingResolver (cfg : config.BlockingConfig) : M loc :=
  alloc (BlockingResolver cfg None).
Definition NewCachingResolver : M loc :=
  alloc (CachingResolver None).
Definition NewUpstreamResolver (upstream : config.Upstream) : M loc :=
  alloc (UpstreamResolver upstream).
Definition NewParallelBestResolver (resolvers : list Resolver) : M loc :=
  alloc (ParallelBestResolver resolvers).

(** Modelled from the spec: "SetNext(resolver): links this stage's
    successor" (the method is called [Next] in the code). *)
Definition Next (l : loc) (next : Resolver) : M unit :=
  o ← load l;
  match withNext next o with
  | Some o' => store l o';; emit (EvNext l next)
  | None => panic "stage is not chainable"
  end.

End Stages.
End resolver.

Import resolver.

(** ** The server package (server/server.go) *)
Section Server.
Context `{config.Types} `{!Behaviour} `{util.Funcs}.

Record Server := {
  udpServer : dns.Server;
  tcpServer : dns.Server;
  queryResolver : Resolver
}.

(** [logger()]: the package's log entry, tagged with its prefix. *)
Definition logger : gmap string logrus.Value :=
  logrus.WithField "prefix" (logrus.VString "server").

Definition log (lvl : logrus.Level) (msg : string) : M unit :=
  emit (EvLog logger lvl msg).

(** [for _, x := range xs { body }] *)
Fixpoint forRange {A} (xs : list A) (body : A → M unit) : M unit :=
  match xs with
  | [] => mret ()
  | x :: xs' => body x;; forRange xs' body
  end.

(** The loop of [printConfiguration].  It runs as long as the links lead
    on, so it is given fuel; [OutOfFuel] is the only outcome that stands
    for a walk still in progress. *)
Fixpoint printConfigurationFrom (fuel : nat) (res : Resolver) : M unit :=
  match fuel with
  | O => λ _, OutOfFuel
  | S fuel' =>
      match res with
      | None => mret ()
      | Some l =>
          o ← load l;
          h ← getHeap;
          log logrus.Info ("-> resolver: '" +:+ Sprint h l +:+ "'");;
          forRange (Configuration h l)
            (λ c, log logrus.Info ("     " +:+ c));;
          match asChained o with
          | Some next => printConfigurationFrom fuel' next
          | None => mret ()
          end
      end
  end.

Definition printConfiguration (fuel : nat) (s : Server) : M unit :=
  log logrus.Info "current configuration:";;
  printConfigurationFrom fuel (queryResolver s).

(** The signals [Start] subscribes to. *)
Inductive Signal := SIGUSR1.

(** The goroutine [Start] leaves behind, [for { <-signals; dump }], run on
    the signals it has received so far: one dump for each.  The two
    listener goroutines of [Start] are outside this model. *)
Fixpoint signalLoop (fuel : nat) (s : Server) (signals : list Signal)
    : M unit :=
  match signals with
  | [] => mret ()
  | SIGUSR1 :: signals' =>
      printConfiguration fuel s;; signalLoop fuel s signals'
  end.

(** The [for i, u := range upstream] loop filling [resolvers] by index. *)
Fixpoint fillResolvers (i : nat) (upstream : list config.Upstream)
    (resolvers : list Resolver) : M (list Resolver) :=
  match upstream with
  | [] => mret resolvers
  | u :: upstream' =>
      r ← NewUpstreamResolver u;
      fillResolvers (S i) upstream' (<[i := Some r]> resolvers)
  end.

Definition createParallelUpstreamResolver (upstream : list config.Upstream)
    : M Resolver :=
  if Nat.eqb (length upstream) 1 then
    match upstream !! 0%nat with
    | Some u => r ← NewUpstreamResolver u; mret (Some r)
    | None => panic "index out of range"
    end
  else
    resolvers ← fillResolvers 0 upstream (replicate (length upstream) None);
    r ← NewParallelBestResolver resolvers;
    mret (Some r).

Definition newUDPServer (port : Z) (handler : gmap string dns.Handler)
    : dns.Server :=
  {| dns.Addr := ":" +:+ pretty port;
     dns.Net := "udp";
     dns.Handler_ := handler;
     dns.NotifyStarted := "udp server is up and running";
     dns.UDPSize := 65535 |}.

Definition newTCPServer (port : Z) (handler : gmap string dns.Handler)
    : dns.Server :=
  {| dns.Addr := ":" +:+ pretty port;
     dns.Net := "tcp";
     dns.Handler_ := handler;
     dns.NotifyStarted := "tcp server is up and running";
     dns.UDPSize := 0 |}.

(** [NewServer] returns Go's pair of a server pointer and an error.  The
    two muxes are shared with the listeners by pointer, so the returned
    server sees the handlers registered after the configuration dump. *)
Definition NewServer (fuel : nat) (cfg : config.Config)
    : M (option Server * option string) :=
  let udpHandler := dns.NewServeMux in
  let tcpHandler := dns.NewServeMux in
  clientNamesResolver ← NewClientNamesResolver (config.ClientLookup cfg);
  queryLoggingResolver ← NewQueryLoggingResolver (config.QueryLog cfg);
  conditionalUpstreamResolver ←
    NewConditionalUpstreamResolver (config.Conditional cfg);
  customDNSResolver ← NewCustomDNSResolver (config.CustomDNS cfg);
  blacklistResolver ← NewBlockingResolver (config.Blocking cfg);
  cachingResolver ← NewCachingResolver;
  parallelUpstreamResolver ←
    createParallelUpstreamResolver
      (config.ExternalResolvers (config.Upstream_ cfg));
  Next clientNamesResolver (Some queryLoggingResolver);;
  Next queryLoggingResolver (Some conditionalUpstreamResolver);;
  Next conditionalUpstreamResolver (Some customDNSResolver);;
  Next customDNSResolver (Some blacklistResolver);;
  Next blacklistResolver (Some cachingResolver);;
  Next cachingResolver parallelUpstreamResolver;;
  let queryResolver : Resolver := Some clientNamesResolver in
  printConfiguration fuel
    {| udpServer := newUDPServer (config.Port cfg) udpHandler;
       tcpServer := newTCPServer (config.Port cfg) tcpHandler;
       queryResolver := queryResolver |};;
  let udpHandler := dns.HandleFunc "." dns.HandlerOnRequest udpHandler in
  let tcpHandler := dns.HandleFunc "." dns.HandlerOnRequest tcpHandler in
  mret (Some {| udpServer := newUDPServer (config.Port cfg) udpHandler;
                tcpServer := newTCPServer (config.Port cfg) tcpHandler;
                queryResolver := queryResolver |},
        None).

Definition resolveClientIP (addr : net.Addr) : net.IP :=
  let clientIP : net.IP := None in
  match addr with
  | net.UDPAddr ip _ _ => ip
  | net.TCPAddr ip _ _ => ip
  | _ => clientIP
  end.

(** [w.WriteMsg(m)]: the call is recorded, the transport decides the error. *)
Definition WriteMsg (w : dns.ResponseWriter) (m : dns.Msg)
    : M (option string) :=
  emit (EvWriteMsg m);; mret (dns.WriteMsgErr w).

(** [dns.HandleFailed]: answers SERVFAIL, whether or not the write fails. *)
Definition HandleFailed (w : dns.ResponseWriter) (r : dns.Msg) : M unit :=
  let m := dns.SetRcode r dns.RcodeServerFailure dns.newMsg in
  WriteMsg w m;; mret ().

(** A method call on an interface value: nil has no method to run. *)
Definition callResolve (res : Resolver) (r : Request)
    : M (option Response * option string) :=
  match res with
  | None => panic "nil pointer dereference"
  | Some l =>
      h ← getHeap;
      emit (EvResolve l r);;
      mret (Resolve h l r)
  end.

(** The [resolver.Request] literal that [OnRequest] builds. *)
Definition requestFor (w : dns.ResponseWriter) (request : dns.Msg) : Request :=
  let clientIP := resolveClientIP (dns.RemoteAddr w) in
  {| ClientIP := clientIP;
     Req := request;
     Log := {[ "question" :=
                 logrus.VString
                   (util.QuestionToString (dns.Questions request));
               "client_ip" := logrus.VIP clientIP ]} |}.

Definition OnRequest (s : Server) (w : dns.ResponseWriter)
    (request : dns.Msg) : M unit :=
  log logrus.Debug "new request";;
  let r := requestFor w request in
  '(response, err) ← callResolve (queryResolver s) r;
  match err with
  | Some e =>
      log logrus.Error ("error on processing request: " +:+ e);;
      HandleFailed w request
  | None =>
      match response with
      | None => panic "nil pointer dereference"
      | Some response =>
          match Res response with
          | None => panic "nil pointer dereference"
          | Some res =>
              let res :=
                dns.set_Hdr
                  (dns.set_RecursionAvailable
                     (dns.RecursionDesired (dns.Hdr request)) (dns.Hdr res))
                  res in
              err ← WriteMsg w res;
              match err with
              | Some e => log logrus.Error ("can't write message: " +:+ e)
              | None => mret ()
              end
          end
      end
  end.

End Server.

(** ** Shutdown (server/server.go, [Stop]) *)

(** What [Stop] does to the outside.  [Fatalf] logs and then ends the
    process with status 1, so nothing after it runs. *)
Inductive StopEvent :=
| StopInfo (fields : gmap string logrus.Value) (msg : string)
| StopShutdown (srv : dns.Server)
| StopFatal (fields : gmap string logrus.Value) (msg : string).

Inductive StopOutcome :=
| StopReturns
| StopExits (status : Z).

(** [if err := srv.Shutdown(); err != nil { logger().Fatalf(...) }], where
    [err] is what the listener answers and [rest] is the code after it. *)
Definition shutdownOrExit (srv : dns.Server) (err : option string)
    (rest : list StopEvent → list StopEvent * StopOutcome)
    (trace : list StopEvent) : list StopEvent * StopOutcome :=
  match err with
  | Some e =>
      (trace ++
       [StopShutdown srv;
        StopFatal logger
          ("stop " +:+ dns.Net srv +:+ " listener failed: " +:+ e)],
       StopExits 1)
  | None => rest (trace ++ [StopShutdown srv])
  end.

(** [Stop], given the answers of the two listeners to [Shutdown]. *)
Definition Stop (udpErr tcpErr : option string) (s : Server)
    : list StopEvent * StopOutcome :=
  shutdownOrExit (udpServer s) udpErr
    (shutdownOrExit (tcpServer s) tcpErr (λ trace, (trace, StopReturns)))
    [StopInfo logger "Stopping server"].

(** ** Vocabulary of the statements *)
Section Vocabulary.
Context `{config.Types} `{!Behaviour} `{util.Funcs}.

(** [chain h res path]: following successor links in [h] from [res] visits
    exactly [path] and ends either at a nil successor or at the first stage
    without the chained-resolver capability. *)
Inductive chain (h : list Object) : Resolver → list loc → Prop :=
| chain_nil : chain h None []
| chain_last l o :
    h !! l = Some o → asChained o = None → chain h (Some l) [l]
| chain_link l o next path :
    h !! l = Some o → asChained o = Some next → chain h next path →
    chain h (Some l) (l :: path).

(** What the diagnostics dump logs for one stage. *)
Definition stageLog (h : list Object) (l : loc) : list Event :=
  EvLog logger logrus.Info ("-> resolver: '" +:+ Sprint h l +:+ "'")
  :: ((λ c, EvLog logger logrus.Info ("     " +:+ c)) <$> Configuration h l).

(** What one diagnostics dump logs on the chain [path]. *)
Definition dumpLog (h : list Object) (path : list loc) : list Event :=
  EvLog logger logrus.Info "current configuration:"
  :: concat (stageLog h <$> path).

(** The world in which a computation ended, if it ended. *)
Definition finalWorld {A} (o : Outcome A) : option World :=
  match o with
  | Returns _ w => Some w
  | Panics _ w => Some w
  | OutOfFuel => None
  end.

(** The successor links set, and the requests handed to the pipeline, in
    the order in which they occur in a trace. *)
Definition nextCalls (evs : list Event) : list (loc * Resolver) :=
  omap (λ e, match e with EvNext l n => Some (l, n) | _ => None end) evs.

Definition resolveCalls (evs : list Event) : list (loc * Request) :=
  omap (λ e, match e with EvResolve l r => Some (l, r) | _ => None end) evs.

Definition writtenMsgs (evs : list Event) : list dns.Msg :=
  omap (λ e, match e with EvWriteMsg m => Some m | _ => None end) evs.

(** The events a computation added to the trace of the world it started in. *)
Definition newEvents {A} (m : M A) (w : World) : list Event :=
  from_option (λ w', drop (length (events w)) (events w')) []
    (finalWorld (m w)).

(** The stages [createParallelUpstreamResolver] allocates on a heap of
    size [base], and the address of the stage it returns. *)
Definition terminalObjects (base : loc) (upstream : list config.Upstream)
    : list Object :=
  if Nat.eqb (length upstream) 1 then UpstreamResolver <$> upstream
  else (UpstreamResolver <$> upstream) ++
       [ParallelBestResolver (Some <$> seq base (length upstream))].

Definition terminalLoc (base : loc) (upstream : list config.Upstream) : loc :=
  if Nat.eqb (length upstream) 1 then base else base + length upstream.

(** The six linked stages as [NewServer] leaves them on a heap of size
    [base], the path of the chain and the server value it returns. *)
Definition linkedStages (cfg : config.Config) (base : loc)
    (terminal : Resolver) : list Object :=
  [ ClientNamesResolver (config.ClientLookup cfg) (Some (base + 1));
    QueryLoggingResolver (config.QueryLog cfg) (Some (base + 2));
    ConditionalUpstreamResolver (config.Conditional cfg) (Some (base + 3));
    CustomDNSResolver (config.CustomDNS cfg) (Some (base + 4));
    BlockingResolver (config.Blocking cfg) (Some (base + 5));
    CachingResolver terminal ].

Definition pipelinePath (base : loc) (terminal : loc) : list loc :=
  [base; base + 1; base + 2; base + 3; base + 4; base + 5; terminal].

Definition servingOn (port : Z) (head : Resolver) : Server :=
  {| udpServer :=
       newUDPServer port
         (dns.HandleFunc "." dns.HandlerOnRequest dns.NewServeMux);
     tcpServer :=
       newTCPServer port
         (dns.HandleFunc "." dns.HandlerOnRequest dns.NewServeMux);
     queryResolver := head |}.

(** [RecursionAvailable] overwritten in place, as [OnRequest] does it. *)
Definition mirrorRecursion (request res : dns.Msg) : dns.Msg :=
  dns.set_Hdr
    (dns.set_RecursionAvailable
       (dns.RecursionDesired (dns.Hdr request)) (dns.Hdr res))
    res.

(** The reply of [dns.HandleFailed] to [request]. *)
Definition failureReply (request : dns.Msg) : dns.Msg :=
  dns.SetRcode request dns.RcodeServerFailure dns.newMsg.

(** The trace of [OnRequest] up to the moment [Resolve] returns. *)
Definition requestPrefix (l : loc) (w : dns.ResponseWriter)
    (request : dns.Msg) : list Event :=
  [EvLog logger logrus.Debug "new request";
   EvResolve l (requestFor w request)].

Definition isLog (e : Event) : bool :=
  match e with
  | EvLog _ _ _ => true
  | _ => false
  end.

(** The listeners [Stop] asked to shut down, in order. *)
Definition shutdowns (trace : list StopEvent) : list dns.Server :=
  omap (λ e, match e with StopShutdown srv => Some srv | _ => None end) trace.

(** A log line of the server package at [Info] level. *)
Definition isInfoLine (e : Event) : Prop :=
  ∃ msg, e = EvLog logger logrus.Info msg.

(** The number of stages [createParallelUpstreamResolver] allocates. *)
Definition terminalCount (upstream : list config.Upstream) : nat :=
  if Nat.eqb (length upstream) 1 then 1 else S (length upstream).


End Vocabulary.

(** ** A concrete instantiation, used to run the model *)
Module sample.

#[export] Instance types : config.Types := {|
  config.Upstream := string;
  config.ClientLookupConfig := string;
  config.QueryLogConfig := string;
  config.ConditionalUpstreamConfig := list (string * string);
  config.CustomDNSConfig := list (string * string);
  config.BlockingConfig := list string
|}.

Definition stageName (o : Object) : string :=
  match o with
  | ClientNamesResolver _ _ => "client names resolver"
  | QueryLoggingResolver _ _ => "query logging resolver"
  | ConditionalUpstreamResolver _ _ => "conditional upstream resolver"
  | CustomDNSResolver _ _ => "custom DNS resolver"
  | BlockingResolver _ _ => "blocking resolver"
  | CachingResolver _ => "caching resolver"
  | UpstreamResolver u => "upstream '" +:+ u +:+ "'"
  | ParallelBestResolver _ => "parallel best resolver"
  end.

Definition stageConfiguration (o : Object) : list string :=
  match o with
  | ClientNamesResolver cfg _ => ["singleNameOrder = " +:+ cfg]
  | QueryLoggingResolver cfg _ => ["logDir= " +:+ cfg]
  | BlockingResolver cfg _ => cfg
  | ParallelBestResolver rs =>
      ["upstream resolvers count: " +:+ pretty (length rs)]
  | _ => []
  end.

Definition answerA (q : dns.Question) : dns.RR :=
  {| dns.RR_Name := dns.Name q; dns.Rrtype := 1; dns.Class := 1;
     dns.Ttl := 300; dns.Rdata := "93.184.216.34" |}.

(** A pipeline that answers queries with a question section and fails on
    those without one. *)
Definition resolve (h : list Object) (l : loc) (r : Request)
    : option Response * option string :=
  match dns.Questions (Req r) with
  | [] => (None, Some "no question in request")
  | q :: _ =>
      (Some {| Res := Some (dns.SetReply (Req r)
                 {| dns.Hdr := dns.zeroHdr; dns.Compress := false;
                    dns.Questions := []; dns.Answer := [answerA q];
                    dns.Ns := []; dns.Extra := [] |});
               Reason := "RESOLVED" |},
       None)
  end.

#[export] Instance behaviour : Behaviour := {|
  Resolve := resolve;
  Configuration h l := from_option stageConfiguration [] (h !! l);
  Sprint h l := from_option stageName "" (h !! l)
|}.

#[export] Instance funcs : util.Funcs := {|
  util.QuestionToString qs :=
    from_option (λ q, dns.Name q) "" (head qs)
|}.

Definition cfg (upstreams : list string) : config.Config :=
  {| config.Port := 53;
     config.ClientLookup := "2,1";
     config.QueryLog := "/logs";
     config.Conditional := [("fritz.box", "udp:192.168.178.1")];
     config.CustomDNS := [("my.duckdns.org", "192.168.178.3")];
     config.Blocking := ["ads"; "trackers"];
     config.Upstream_ := {| config.ExternalResolvers := upstreams |} |}.

Definition world0 : World := {| heap := []; events := [] |}.

Definition query (rd : bool) (qs : list dns.Question) : dns.Msg :=
  {| dns.Hdr :=
       {| dns.Id := 4711; dns.Response := false; dns.Opcode := 0;
          dns.Authoritative := false; dns.Truncated := false;
          dns.RecursionDesired := rd; dns.RecursionAvailable := false;
          dns.Zero := false; dns.AuthenticatedData := false;
          dns.CheckingDisabled := false; dns.Rcode := 0 |};
     dns.Compress := false; dns.Questions := qs;
     dns.Answer := []; dns.Ns := []; dns.Extra := [] |}.

Definition exampleQuestion : dns.Question :=
  {| dns.Name := "example.com."; dns.Qtype := 1; dns.Qclass := 1 |}.

Definition udpWriter : dns.ResponseWriter :=
  {| dns.RemoteAddr :=
       net.UDPAddr (Some [Byte.xc0; Byte.xa8; Byte.x00; Byte.x07]) 40000 "";
     dns.WriteMsgErr := None |}.

Definition tcpWriter : dns.ResponseWriter :=
  {| dns.RemoteAddr :=
       net.TCPAddr (Some [Byte.x0a; Byte.x00; Byte.x00; Byte.x02]) 51000 "";
     dns.WriteMsgErr := Some "broken pipe" |}.

Definition unixWriter : dns.ResponseWriter :=
  {| dns.RemoteAddr := net.UnixAddr "/run/dns.sock" "unix";
     dns.WriteMsgErr := None |}.

Definition upstreams : list config.Upstream :=
  ["udp:8.8.8.8"; "udp:1.1.1.1"].

Definition oneUpstream : list config.Upstream := ["udp:9.9.9.9"].

(** The server and the world after [NewServer] ran from the empty world. *)
Definition server : Server :=
  match NewServer 8 (cfg upstreams) world0 with
  | Returns (Some s, _) _ => s
  | _ => servingOn 0 None
  end.

Definition started : World :=
  from_option id world0 (finalWorld (NewServer 8 (cfg upstreams) world0)).

(** The world after one more configuration dump. *)
Definition dumped : World :=
  from_option id started (finalWorld (printConfiguration 9 server started)).

End sample.

(** ** Properties *)
Section Properties.
Context `{config.Types} `{!Behaviour} `{util.Funcs}.

Ltac run := unfold mbind, M_bind, mret, M_ret; simpl.

Lemma bind_Returns {A B} (m : M A) (f : A → M B) (w w' : World) (a : A) :
  m w = Returns a w' → (m ≫= f) w = f a w'.
Proof. intros E. unfold mbind, M_bind. by rewrite E. Qed.

(** *** createParallelUpstreamResolver *)

Lemma fillResolvers_run (upstream : list config.Upstream) :
  ∀ (i : nat) (resolvers : list Resolver) (w : World),
    length resolvers = i + length upstream →
    fillResolvers i upstream resolvers w =
    Returns
      (take i resolvers ++ (Some <$> seq (length (heap w)) (length upstream)))
      {| heap := heap w ++ (UpstreamResolver <$> upstream);
         events := events w |}.
Proof.
  induction upstream as [|u upstream IH]; intros i resolvers w Hlen.
  - simpl in *. run. destruct w as [h evs]; simpl.
    rewrite !app_nil_r. rewrite Nat.add_0_r in Hlen.
    subst i. by rewrite firstn_all.
  - simpl fillResolvers. unfold NewUpstreamResolver, alloc. run.
    simpl in Hlen.
    rewrite IH by (rewrite length_insert; lia).
    simpl. rewrite length_app. simpl.
    destruct (lookup_lt_is_Some_2 resolvers i) as [x Hx]; [lia|].
    erewrite take_S_r by (apply list_lookup_insert_eq; lia).
    rewrite take_insert. case_decide; [lia|].
    rewrite <- !app_assoc. simpl. by rewrite Nat.add_1_r.
Qed.

Lemma createParallelUpstreamResolver_run (upstream : list config.Upstream)
    (w : World) :
  createParallelUpstreamResolver upstream w =
  Returns (Some (terminalLoc (length (heap w)) upstream))
    {| heap := heap w ++ terminalObjects (length (heap w)) upstream;
       events := events w |}.
Proof.
  unfold createParallelUpstreamResolver, terminalLoc, terminalObjects.
  destruct (Nat.eqb_spec (length upstream) 1) as [E|NE].
  - destruct upstream as [|u [|??]]; try discriminate E. reflexivity.
  - rewrite (bind_Returns _ _ _ _ _
      (fillResolvers_run upstream 0 _ w
         ltac:(by rewrite length_replicate))).
    unfold NewParallelBestResolver, alloc. run.
    rewrite length_app, length_fmap, <- app_assoc. reflexivity.
Qed.

(** C3: for every upstream list and every heap, exactly one entry yields a
    single upstream resolver for that entry; more than one entry yields a
    parallel best-resolver whose member list holds, position by position,
    a fresh upstream resolver for the entry at that position.  Nothing is
    logged or linked on the way. *)
Theorem createParallelUpstreamResolver_terminal
    (upstream : list config.Upstream) (w : World) :
  (length upstream = 1 →
     ∃ u, upstream = [u] ∧
       createParallelUpstreamResolver upstream w =
       Returns (Some (length (heap w)))
         {| heap := heap w ++ [UpstreamResolver u]; events := events w |})
  ∧
  (1 < length upstream →
     ∃ members w',
       createParallelUpstreamResolver upstream w =
         Returns (Some (length (heap w) + length upstream)) w' ∧
       events w' = events w ∧
       heap w' =
         heap w ++ (UpstreamResolver <$> upstream) ++
         [ParallelBestResolver members] ∧
       heap w' !! (length (heap w) + length upstream) =
         Some (ParallelBestResolver members) ∧
       length members = length upstream ∧
       ∀ i u, upstream !! i = Some u →
         members !! i = Some (Some (length (heap w) + i)) ∧
         heap w' !! (length (heap w) + i) = Some (UpstreamResolver u)).
Proof.
  pose proof (createParallelUpstreamResolver_run upstream w) as Hrun.
  unfold terminalLoc, terminalObjects in Hrun.
  split; intros Hlen.
  - destruct upstream as [|u [|??]]; try discriminate Hlen.
    exists u. split; [done|]. exact Hrun.
  - destruct (Nat.eqb_spec (length upstream) 1) as [E|_]; [lia|].
    eexists _, _. split; [exact Hrun|]. simpl.
    split; [done|]. split; [done|]. split; [|split].
    + rewrite app_assoc, lookup_app_r by (rewrite length_app, length_fmap; lia).
      rewrite length_app, length_fmap.
      by replace (_ - _) with 0 by lia.
    + by rewrite length_fmap, length_seq.
    + intros i u Hi. pose proof (lookup_lt_Some _ _ _ Hi) as Hlt. split.
      * rewrite list_lookup_fmap, lookup_seq_lt by done. reflexivity.
      * rewrite lookup_app_r by lia.
        replace (_ - _) with i by lia.
        rewrite lookup_app_l by (rewrite length_fmap; lia).
        by rewrite list_lookup_fmap, Hi.
Qed.

(** *** Linking *)

Lemma Next_run (l : loc) (next : Resolver) (o o' : Object) (w : World) :
  heap w !! l = Some o →
  withNext next o = Some o' →
  Next l next w =
  Returns () {| heap := <[l := o']> (heap w);
                events := events w ++ [EvNext l next] |}.
Proof.
  intros Hl Ho. unfold Next, load, store, emit. run.
  rewrite Hl, Ho. reflexivity.
Qed.

(** *** The diagnostics walk *)

#[local] Arguments log : simpl never.
#[local] Arguments forRange : simpl never.
#[local] Arguments Next : simpl never.
#[local] Arguments printConfiguration : simpl never.

Lemma log_run (lvl : logrus.Level) (msg : string) (w : World) :
  log lvl msg w =
  Returns () {| heap := heap w;
                events := events w ++ [EvLog logger lvl msg] |}.
Proof. reflexivity. Qed.

Lemma forRange_log (lvl : logrus.Level) (f : string → string)
    (xs : list string) :
  ∀ h evs,
    forRange xs (λ c, log lvl (f c)) {| heap := h; events := evs |} =
    Returns () {| heap := h;
                  events := evs ++ ((λ c, EvLog logger lvl (f c)) <$> xs) |}.
Proof.
  induction xs as [|x xs IH]; intros h evs.
  - unfold forRange. run. by rewrite app_nil_r.
  - change (forRange (x :: xs) (λ c, log lvl (f c)))
      with (log lvl (f x) ≫= λ _, forRange xs (λ c, log lvl (f c))).
    run. rewrite IH. by rewrite <- app_assoc.
Qed.

Lemma printConfigurationFrom_chain (h : list Object) (res : Resolver)
    (path : list loc) :
  chain h res path →
  ∀ fuel evs,
    length path < fuel →
    printConfigurationFrom fuel res {| heap := h; events := evs |} =
    Returns () {| heap := h;
                  events := evs ++ concat (stageLog h <$> path) |}.
Proof.
  induction 1 as [|l o Hl Ho|l o next path Hl Ho Hchain IH];
    intros [|fuel] evs Hfuel; simpl in Hfuel; try lia.
  - simpl. run. by rewrite app_nil_r.
  - simpl. unfold load, getHeap. run. rewrite Hl. simpl.
    rewrite (forRange_log logrus.Info (λ c, "     " +:+ c)), Ho. simpl.
    rewrite app_nil_r, <- app_assoc. reflexivity.
  - simpl. unfold load, getHeap. run. rewrite Hl. simpl.
    rewrite (forRange_log logrus.Info (λ c, "     " +:+ c)), Ho.
    rewrite IH by lia.
    by rewrite <- !app_assoc.
Qed.

(** The walk needs the chain to be finite: on a stage linked to itself it
    is still running whatever fuel it is given. *)
Lemma printConfigurationFrom_cycle_runs_on (fuel : nat) (evs : list Event) :
  printConfigurationFrom fuel (Some 0)
    {| heap := [CachingResolver (Some 0)]; events := evs |} = OutOfFuel.
Proof.
  revert evs. induction fuel as [|fuel IH]; intros evs; [reflexivity|].
  simpl. unfold load, getHeap. run.
  rewrite (forRange_log logrus.Info (λ c, "     " +:+ c)). apply IH.
Qed.

(** *** Assembly *)

Lemma Next_app (h stages : list Object) (k : nat) (next : Resolver)
    (o o' : Object) (evs : list Event) :
  stages !! k = Some o →
  withNext next o = Some o' →
  Next (length h + k) next {| heap := h ++ stages; events := evs |} =
  Returns () {| heap := h ++ <[k := o']> stages;
                events := evs ++ [EvNext (length h + k) next] |}.
Proof.
  intros Hk Ho. erewrite Next_run; [|simpl|exact Ho].
  - simpl. by rewrite insert_app_r.
  - rewrite lookup_app_r by lia. by replace (_ - _) with k by lia.
Qed.

Lemma lookup_app_plus {A} (l1 l2 : list A) (k : nat) :
  (l1 ++ l2) !! (length l1 + k) = l2 !! k.
Proof. rewrite lookup_app_r by lia. f_equal. lia. Qed.

(** The stage returned by [createParallelUpstreamResolver] sits at the
    returned address and has no successor link. *)
Lemma terminalObjects_lookup (base : loc) (upstream : list config.Upstream) :
  terminalObjects base upstream !! (terminalLoc base upstream - base) =
  Some (match upstream with
        | [u] => UpstreamResolver u
        | _ => ParallelBestResolver (Some <$> seq base (length upstream))
        end).
Proof.
  unfold terminalObjects, terminalLoc.
  destruct (Nat.eqb_spec (length upstream) 1) as [E|NE].
  - destruct upstream as [|u [|??]]; try discriminate E.
    by rewrite Nat.sub_diag.
  - replace (_ - _) with (length (UpstreamResolver <$> upstream) + 0)
      by (rewrite length_fmap; lia).
    rewrite lookup_app_plus. by destruct upstream as [|u [|??]].
Qed.

Lemma terminalLoc_ge (base : loc) (upstream : list config.Upstream) :
  (base ≤ terminalLoc base upstream)%nat.
Proof. unfold terminalLoc. case_match; lia. Qed.

Lemma terminal_stage_lookup (cfg : config.Config) (h : list Object)
    (next : Resolver) (upstream : list config.Upstream) :
  (h ++ linkedStages cfg (length h) next ++
   terminalObjects (length h + 6) upstream)
    !! terminalLoc (length h + 6) upstream =
  Some (match upstream with
        | [u] => UpstreamResolver u
        | _ => ParallelBestResolver
                 (Some <$> seq (length h + 6) (length upstream))
        end).
Proof.
  pose proof (terminalLoc_ge (length h + 6) upstream) as Hge.
  etransitivity;
    [apply (f_equal (λ i, _ !! i)
              (x := terminalLoc (length h + 6) upstream)
              (y := length h +
                    (6 + (terminalLoc (length h + 6) upstream -
                          (length h + 6)))));
     lia|].
  rewrite lookup_app_plus. simpl. apply terminalObjects_lookup.
Qed.

Lemma pipeline_chain (cfg : config.Config) (h : list Object) :
  let base := length h in
  let upstream := config.ExternalResolvers (config.Upstream_ cfg) in
  let terminal := terminalLoc (base + 6) upstream in
  chain (h ++ linkedStages cfg base (Some terminal) ++
         terminalObjects (base + 6) upstream)
    (Some base) (pipelinePath base terminal).
Proof.
  intros base upstream terminal. unfold pipelinePath.
  subst base.
  eapply chain_link; [by apply list_lookup_middle|reflexivity|].
  do 5 (eapply chain_link;
        [rewrite lookup_app_plus; reflexivity|reflexivity|]).
  eapply chain_last.
  - apply terminal_stage_lookup.
  - by destruct upstream as [|u [|??]].
Qed.

Lemma NewServer_run (cfg : config.Config) (w : World) (fuel : nat) :
  let base := length (heap w) in
  let upstream := config.ExternalResolvers (config.Upstream_ cfg) in
  let terminal := terminalLoc (base + 6) upstream in
  let h' := heap w ++ linkedStages cfg base (Some terminal) ++
            terminalObjects (base + 6) upstream in
  NewServer (8 + fuel) cfg w =
  Returns (Some (servingOn (config.Port cfg) (Some base)), None)
    {| heap := h';
       events :=
         events w ++
         [ EvNext base (Some (base + 1));
           EvNext (base + 1) (Some (base + 2));
           EvNext (base + 2) (Some (base + 3));
           EvNext (base + 3) (Some (base + 4));
           EvNext (base + 4) (Some (base + 5));
           EvNext (base + 5) (Some terminal) ] ++
         EvLog logger logrus.Info "current configuration:"
         :: concat (stageLog h' <$> pipelinePath base terminal) |}.
Proof.
  intros base upstream terminal h'.
  match goal with |- _ = ?R => set (rhs := R) end.
  unfold NewServer.
  do 6 (erewrite bind_Returns by reflexivity).
  erewrite bind_Returns by apply createParallelUpstreamResolver_run.
  simpl heap. simpl events. rewrite !length_app. simpl length.
  rewrite <- !app_assoc. simpl app.
  rewrite <- !Nat.add_assoc. simpl Nat.add.
  replace (length (heap w)) with (length (heap w) + 0) at 1 by lia.
  do 6 (erewrite bind_Returns by (eapply Next_app; reflexivity);
        simpl (<[_ := _]> _)).
  unfold printConfiguration.
  erewrite bind_Returns; cycle 1.
  { erewrite bind_Returns by apply log_run.
    apply printConfigurationFrom_chain with (path := pipelinePath base terminal);
      [apply pipeline_chain | simpl; lia]. }
  subst rhs. run. rewrite Nat.add_0_r, <- !app_assoc. reflexivity.
Qed.

(** *** The request boundary *)

Lemma newEvents_Returns {A} (m : M A) (w : World) (a : A) (h : list Object)
    (evs : list Event) :
  m w = Returns a {| heap := h; events := events w ++ evs |} →
  newEvents m w = evs.
Proof.
  intros E. unfold newEvents. rewrite E. simpl. by rewrite drop_app_length.
Qed.

Lemma newEvents_Panics {A} (m : M A) (w : World) (reason : string)
    (h : list Object) (evs : list Event) :
  m w = Panics reason {| heap := h; events := events w ++ evs |} →
  newEvents m w = evs.
Proof.
  intros E. unfold newEvents. rewrite E. simpl. by rewrite drop_app_length.
Qed.

(** Every way [OnRequest] can go, by what the pipeline returns. *)
Lemma OnRequest_run (s : Server) (wr : dns.ResponseWriter)
    (request : dns.Msg) (w : World) (l : loc) :
  queryResolver s = Some l →
  let pre := events w ++ requestPrefix l wr request in
  OnRequest s wr request w =
  match Resolve (heap w) l (requestFor wr request) with
  | (_, Some e) =>
      Returns ()
        {| heap := heap w;
           events :=
             pre ++
             [EvLog logger logrus.Error
                ("error on processing request: " +:+ e);
              EvWriteMsg (failureReply request)] |}
  | (None, None) =>
      Panics "nil pointer dereference" {| heap := heap w; events := pre |}
  | (Some response, None) =>
      match Res response with
      | None =>
          Panics "nil pointer dereference"
            {| heap := heap w; events := pre |}
      | Some res =>
          Returns ()
            {| heap := heap w;
               events :=
                 pre ++
                 EvWriteMsg (mirrorRecursion request res)
                 :: match dns.WriteMsgErr wr with
                    | Some e =>
                        [EvLog logger logrus.Error
                           ("can't write message: " +:+ e)]
                    | None => []
                    end |}
      end
  end.
Proof.
  intros Hs pre. subst pre. unfold OnRequest, callResolve, requestPrefix.
  rewrite Hs. unfold getHeap, WriteMsg, HandleFailed, WriteMsg, log, emit.
  run.
  destruct (Resolve (heap w) l (requestFor wr request)) as [[resp|] [e|]];
    simpl; rewrite <- ?app_assoc; try reflexivity.
  destruct (Res resp) as [res|]; simpl; [|reflexivity].
  destruct (dns.WriteMsgErr wr); simpl; by rewrite <- ?app_assoc.
Qed.

(** C4: when the pipeline's [Resolve] succeeds with a response carrying a
    message, [OnRequest] returns normally and hands exactly one message to
    the response writer: the resolved message with its recursion-available
    flag set to the recursion-desired flag of the query.  The flag is set
    before the write; after the write only a write error is logged. *)
Theorem OnRequest_mirrors_recursion_desired (s : Server)
    (wr : dns.ResponseWriter) (request : dns.Msg) (w : World) (l : loc)
    (response : Response) (res : dns.Msg) :
  queryResolver s = Some l →
  Resolve (heap w) l (requestFor wr request) = (Some response, None) →
  Res response = Some res →
  ∃ w' sent,
    OnRequest s wr request w = Returns () w' ∧
    writtenMsgs (newEvents (OnRequest s wr request) w) = [sent] ∧
    dns.RecursionAvailable (dns.Hdr sent) =
      dns.RecursionDesired (dns.Hdr request) ∧
    sent = mirrorRecursion request res ∧
    newEvents (OnRequest s wr request) w =
      requestPrefix l wr request ++
      EvWriteMsg sent
      :: match dns.WriteMsgErr wr with
         | Some e =>
             [EvLog logger logrus.Error ("can't write message: " +:+ e)]
         | None => []
         end.
Proof.
  intros Hs Hres Hmsg.
  pose proof (OnRequest_run s wr request w l Hs) as Hrun.
  simpl in Hrun. rewrite Hres, Hmsg in Hrun.
  rewrite <- app_assoc in Hrun.
  eexists _, (mirrorRecursion request res). split; [exact Hrun|].
  rewrite (newEvents_Returns _ _ _ _ _ Hrun).
  split; [|done].
  unfold requestPrefix, writtenMsgs. simpl.
  by destruct (dns.WriteMsgErr wr).
Qed.

(** C5: when the pipeline's [Resolve] returns an error, whatever response
    pointer comes with it, [OnRequest] returns normally (no panic), logs
    the error and writes exactly one message: the library's failure reply
    to the query, a response with the query's id, return code SERVFAIL
    and no answer records.  It never closes the connection. *)
Theorem OnRequest_answers_failure (s : Server) (wr : dns.ResponseWriter)
    (request : dns.Msg) (w : World) (l : loc) (response : option Response)
    (e : string) :
  queryResolver s = Some l →
  Resolve (heap w) l (requestFor wr request) = (response, Some e) →
  ∃ w',
    OnRequest s wr request w = Returns () w' ∧
    heap w' = heap w ∧
    newEvents (OnRequest s wr request) w =
      requestPrefix l wr request ++
      [EvLog logger logrus.Error ("error on processing request: " +:+ e);
       EvWriteMsg (failureReply request)] ∧
    writtenMsgs (newEvents (OnRequest s wr request) w) =
      [failureReply request] ∧
    (EvClose ∉ newEvents (OnRequest s wr request) w) ∧
    dns.Rcode (dns.Hdr (failureReply request)) = dns.RcodeServerFailure ∧
    dns.Response (dns.Hdr (failureReply request)) = true ∧
    dns.Id (dns.Hdr (failureReply request)) = dns.Id (dns.Hdr request) ∧
    dns.Answer (failureReply request) = [].
Proof.
  intros Hs Hres.
  pose proof (OnRequest_run s wr request w l Hs) as Hrun.
  simpl in Hrun. rewrite Hres in Hrun.
  assert (OnRequest s wr request w =
          Returns ()
            {| heap := heap w;
               events :=
                 events w ++
                 requestPrefix l wr request ++
                 [EvLog logger logrus.Error
                    ("error on processing request: " +:+ e);
                  EvWriteMsg (failureReply request)] |}) as Hrun'.
  { rewrite Hrun. destruct response; by rewrite <- app_assoc. }
  clear Hrun. eexists. split; [exact Hrun'|].
  rewrite (newEvents_Returns _ _ _ _ _ Hrun').
  repeat split; try reflexivity.
  unfold requestPrefix. simpl. rewrite !elem_of_cons, elem_of_nil.
  intros [?|[?|[?|[?|[]]]]]; discriminate.
Qed.

(** C8: on a successfully resolved request the one message written is the
    resolved message in every field except recursion-available: all other
    header fields, the compression flag and the question, answer,
    authority and additional sections are those the pipeline returned. *)
Theorem OnRequest_changes_only_recursion_available (s : Server)
    (wr : dns.ResponseWriter) (request : dns.Msg) (w : World) (l : loc)
    (response : Response) (res : dns.Msg) :
  queryResolver s = Some l →
  Resolve (heap w) l (requestFor wr request) = (Some response, None) →
  Res response = Some res →
  ∃ sent,
    writtenMsgs (newEvents (OnRequest s wr request) w) = [sent] ∧
    dns.Id (dns.Hdr sent) = dns.Id (dns.Hdr res) ∧
    dns.Response (dns.Hdr sent) = dns.Response (dns.Hdr res) ∧
    dns.Opcode (dns.Hdr sent) = dns.Opcode (dns.Hdr res) ∧
    dns.Authoritative (dns.Hdr sent) = dns.Authoritative (dns.Hdr res) ∧
    dns.Truncated (dns.Hdr sent) = dns.Truncated (dns.Hdr res) ∧
    dns.RecursionDesired (dns.Hdr sent) =
      dns.RecursionDesired (dns.Hdr res) ∧
    dns.Zero (dns.Hdr sent) = dns.Zero (dns.Hdr res) ∧
    dns.AuthenticatedData (dns.Hdr sent) =
      dns.AuthenticatedData (dns.Hdr res) ∧
    dns.CheckingDisabled (dns.Hdr sent) =
      dns.CheckingDisabled (dns.Hdr res) ∧
    dns.Rcode (dns.Hdr sent) = dns.Rcode (dns.Hdr res) ∧
    dns.Compress sent = dns.Compress res ∧
    dns.Questions sent = dns.Questions res ∧
    dns.Answer sent = dns.Answer res ∧
    dns.Ns sent = dns.Ns res ∧
    dns.Extra sent = dns.Extra res.
Proof.
  intros Hs Hres Hmsg.
  pose proof (OnRequest_run s wr request w l Hs) as Hrun.
  simpl in Hrun. rewrite Hres, Hmsg in Hrun.
  rewrite <- app_assoc in Hrun.
  exists (mirrorRecursion request res).
  rewrite (newEvents_Returns _ _ _ _ _ Hrun).
  split; [|by repeat split].
  unfold requestPrefix, writtenMsgs. simpl.
  by destruct (dns.WriteMsgErr wr).
Qed.

(** What [OnRequest] hands to the pipeline, whatever comes back. *)
Lemma OnRequest_resolveCalls (s : Server) (wr : dns.ResponseWriter)
    (request : dns.Msg) (w : World) (l : loc) :
  queryResolver s = Some l →
  resolveCalls (newEvents (OnRequest s wr request) w) =
  [(l, requestFor wr request)].
Proof.
  intros Hs.
  pose proof (OnRequest_run s wr request w l Hs) as Hrun. simpl in Hrun.
  destruct (Resolve (heap w) l (requestFor wr request)) as [[resp|] [e|]];
    [| destruct (Res resp) as [res|] | |].
  all: rewrite <- ?app_assoc in Hrun.
  all: try (rewrite <- (app_nil_r (requestPrefix l wr request)) in Hrun).
  all: first [ rewrite (newEvents_Returns _ _ _ _ _ Hrun)
             | rewrite (newEvents_Panics _ _ _ _ _ Hrun) ].
  all: unfold requestPrefix, resolveCalls; simpl; try reflexivity.
  by destruct (dns.WriteMsgErr wr).
Qed.

(** C9: the request handed to the pipeline carries the query and, as
    client IP, the IP field of the peer's UDP address on the
    connectionless transport and of the peer's TCP address on the
    connection-oriented one. *)
Theorem OnRequest_client_ip_from_peer (s : Server) (wr : dns.ResponseWriter)
    (request : dns.Msg) (w : World) (l : loc) (ip : net.IP) (port : Z)
    (zone : string) :
  queryResolver s = Some l →
  dns.RemoteAddr wr = net.UDPAddr ip port zone ∨
  dns.RemoteAddr wr = net.TCPAddr ip port zone →
  resolveClientIP (dns.RemoteAddr wr) = ip ∧
  ∃ r,
    resolveCalls (newEvents (OnRequest s wr request) w) = [(l, r)] ∧
    ClientIP r = ip ∧
    Req r = request ∧
    Log r !! "client_ip" = Some (logrus.VIP ip).
Proof.
  intros Hs Haddr.
  assert (resolveClientIP (dns.RemoteAddr wr) = ip) as Hip
    by (destruct Haddr as [-> | ->]; reflexivity).
  split; [exact Hip|].
  exists (requestFor wr request).
  split; [by apply OnRequest_resolveCalls|].
  unfold requestFor. simpl. rewrite Hip.
  split; [done|]. split; [done|].
  rewrite lookup_insert_ne by done. apply lookup_singleton_eq.
Qed.

(** C10: a peer address that is neither a UDP nor a TCP address gives the
    nil client IP; [OnRequest] does not reject the query but hands the
    pipeline a request with that nil client IP. *)
Theorem OnRequest_unknown_peer_nil_ip (s : Server) (wr : dns.ResponseWriter)
    (request : dns.Msg) (w : World) (l : loc) :
  queryResolver s = Some l →
  (∀ ip port zone, dns.RemoteAddr wr ≠ net.UDPAddr ip port zone) →
  (∀ ip port zone, dns.RemoteAddr wr ≠ net.TCPAddr ip port zone) →
  resolveClientIP (dns.RemoteAddr wr) = None ∧
  ∃ r,
    resolveCalls (newEvents (OnRequest s wr request) w) = [(l, r)] ∧
    ClientIP r = None ∧
    Req r = request.
Proof.
  intros Hs Hudp Htcp.
  assert (resolveClientIP (dns.RemoteAddr wr) = None) as Hip.
  { destruct (dns.RemoteAddr wr) as [ip p z|ip p z| |] eqn:E;
      try reflexivity.
    - by destruct (Hudp ip p z).
    - by destruct (Htcp ip p z). }
  split; [exact Hip|].
  exists (requestFor wr request).
  split; [by apply OnRequest_resolveCalls|].
  unfold requestFor. simpl. by rewrite Hip.
Qed.

(** *** Traces made of log lines *)

Lemma logs_no_calls (evs : list Event) :
  Forall (λ e, isLog e = true) evs →
  nextCalls evs = [] ∧ resolveCalls evs = [].
Proof.
  induction 1 as [|e evs He _ [IH1 IH2]]; [done|].
  destruct e; try discriminate He. done.
Qed.

Lemma stageLog_logs (h : list Object) (path : list loc) :
  Forall (λ e, isLog e = true) (concat (stageLog h <$> path)).
Proof.
  induction path as [|l path IH]; simpl; [constructor|].
  constructor; [done|]. apply Forall_app. split; [|exact IH].
  by apply Forall_fmap, Forall_true.
Qed.

(** Whatever the heap and the fuel, the diagnostics walk leaves the heap
    alone and adds nothing but log lines to the trace. *)
Lemma printConfigurationFrom_logs (fuel : nat) :
  ∀ (res : Resolver) (w w' : World),
    finalWorld (printConfigurationFrom fuel res w) = Some w' →
    heap w' = heap w ∧
    ∃ evs, events w' = events w ++ evs ∧ Forall (λ e, isLog e = true) evs.
Proof.
  induction fuel as [|fuel IH]; intros res w w' Hfin; [discriminate Hfin|].
  destruct res as [l|]; simpl in Hfin.
  - revert Hfin. unfold load, getHeap. run.
    destruct (heap w !! l) as [o|] eqn:Hl; simpl.
    + destruct w as [h evs]. simpl in *.
      rewrite (forRange_log logrus.Info (λ c, "     " +:+ c)).
      destruct (asChained o) as [next|]; intros Hfin.
      * apply IH in Hfin as (Hh & evs' & Hev & Hlogs). simpl in *.
        split; [done|]. eexists. rewrite Hev, <- !app_assoc.
        split; [reflexivity|].
        constructor; [done|]. apply Forall_app. split; [|done].
        by apply Forall_fmap, Forall_true.
      * injection Hfin as <-. simpl. split; [done|].
        eexists. rewrite <- !app_assoc. split; [reflexivity|].
        constructor; [done|]. by apply Forall_fmap, Forall_true.
    + intros [= <-]. split; [done|]. exists []. by rewrite app_nil_r.
  - injection Hfin as <-. split; [done|]. exists []. by rewrite app_nil_r.
Qed.

Lemma printConfiguration_no_links (fuel : nat) (s : Server) (w : World) :
  nextCalls (newEvents (printConfiguration fuel s) w) = [] ∧
  (∀ w', finalWorld (printConfiguration fuel s w) = Some w' →
         heap w' = heap w).
Proof.
  unfold newEvents, printConfiguration. run.
  destruct (finalWorld (printConfigurationFrom fuel (queryResolver s) _))
    as [w'|] eqn:Hfin; simpl.
  - apply printConfigurationFrom_logs in Hfin as (Hh & evs' & Hev & Hlogs).
    simpl in *. split; [|by intros ? [= <-]].
    rewrite Hev, <- app_assoc, drop_app_length.
    apply (logs_no_calls (_ :: evs')). by constructor.
  - done.
Qed.

Lemma OnRequest_no_links (s : Server) (wr : dns.ResponseWriter)
    (request : dns.Msg) (w : World) (l : loc) :
  queryResolver s = Some l →
  nextCalls (newEvents (OnRequest s wr request) w) = [].
Proof.
  intros Hs.
  pose proof (OnRequest_run s wr request w l Hs) as Hrun. simpl in Hrun.
  destruct (Resolve (heap w) l (requestFor wr request)) as [[resp|] [e|]];
    [| destruct (Res resp) as [res|] | |].
  all: rewrite <- ?app_assoc in Hrun.
  all: try (rewrite <- (app_nil_r (requestPrefix l wr request)) in Hrun).
  all: first [ rewrite (newEvents_Returns _ _ _ _ _ Hrun)
             | rewrite (newEvents_Panics _ _ _ _ _ Hrun) ].
  all: unfold requestPrefix, nextCalls; simpl; try reflexivity.
  by destruct (dns.WriteMsgErr wr).
Qed.

(** C6: on every chain (finite sequence of successor links) the
    diagnostics walk terminates without error once it has more fuel than
    the chain is long, leaves the heap as it was and logs, stage by stage
    from the head, the stage and its configuration lines.  Every stage
    before the last one visited is chainable, so the walk stops at the
    first stage that is not; a head that is not chainable is the only
    stage visited.  The signal goroutine does the same dump once for each
    signal it receives. *)
Theorem printConfiguration_walks_chain (s : Server) (w : World)
    (path : list loc) :
  chain (heap w) (queryResolver s) path →
  (∀ fuel, length path < fuel →
     printConfiguration fuel s w =
     Returns ()
       {| heap := heap w;
          events :=
            events w ++
            EvLog logger logrus.Info "current configuration:"
            :: concat (stageLog (heap w) <$> path) |}) ∧
  (∀ i l, path !! i = Some l → S i < length path →
     ∃ o next, heap w !! l = Some o ∧ asChained o = Some next) ∧
  (∀ l o, queryResolver s = Some l → heap w !! l = Some o →
     asChained o = None → path = [l]) ∧
  (∀ fuel signals, length path < fuel →
     signalLoop fuel s signals w =
     Returns ()
       {| heap := heap w;
          events :=
            events w ++
            concat (replicate (length signals) (dumpLog (heap w) path)) |}).
Proof.
  intros Hchain.
  assert (∀ fuel evs, length path < fuel →
            printConfiguration fuel s {| heap := heap w; events := evs |} =
            Returns ()
              {| heap := heap w;
                 events := evs ++ dumpLog (heap w) path |}) as Hdump.
  { intros fuel evs Hfuel. unfold printConfiguration.
    erewrite bind_Returns by apply log_run.
    rewrite (printConfigurationFrom_chain _ _ _ Hchain) by done.
    by rewrite <- app_assoc. }
  split; [|split; [|split]].
  - intros fuel Hfuel. destruct w as [h evs]. by apply Hdump.
  - clear Hdump.
    induction Hchain as [|l o Hl Ho|l o next path Hl Ho Hchain IH];
      intros i l' Hi Hlen; simpl in Hlen.
    + lia.
    + lia.
    + destruct i as [|i]; simpl in Hi.
      * injection Hi as <-. eauto.
      * apply (IH i l' Hi). lia.
  - intros l o Hs Hl Ho. rewrite Hs in Hchain.
    inversion Hchain as [|l' o' Hl' Ho'|l' o' next path' Hl' Ho' Hrest];
      subst; [done|].
    rewrite Hl in Hl'. injection Hl' as <-. congruence.
  - intros fuel signals Hfuel. destruct w as [h evs]. simpl in *.
    revert evs. induction signals as [|[] signals IH]; intros evs.
    + simpl. run. by rewrite app_nil_r.
    + change (signalLoop fuel s (SIGUSR1 :: signals))
        with (printConfiguration fuel s ≫= λ _, signalLoop fuel s signals).
      erewrite bind_Returns by (by apply Hdump).
      rewrite IH. simpl. by rewrite <- app_assoc.
Qed.

(** *** The assembled pipeline *)

Lemma bind_Returns_inv {A B} (m : M A) (f : A → M B) (w w' : World) (b : B) :
  (m ≫= f) w = Returns b w' →
  ∃ a w1, m w = Returns a w1 ∧ f a w1 = Returns b w'.
Proof. unfold mbind, M_bind. destruct (m w); [eauto|done|done]. Qed.

Lemma linkedStages_lookup (cfg : config.Config) (h rest : list Object)
    (terminal : Resolver) (k : nat) (o : Object) :
  linkedStages cfg (length h) terminal !! k = Some o →
  (h ++ linkedStages cfg (length h) terminal ++ rest) !! (length h + k) =
  Some o.
Proof.
  intros Hk. rewrite lookup_app_plus. by apply lookup_app_l_Some.
Qed.

Lemma pipelinePath_NoDup (base terminal : loc) :
  (base + 6 ≤ terminal)%nat → NoDup (pipelinePath base terminal).
Proof.
  intros Hge. unfold pipelinePath.
  repeat (apply NoDup_cons; split;
          [rewrite ?elem_of_cons, elem_of_nil; lia|]).
  apply NoDup_nil_2.
Qed.

(** C1: from any heap, and with fuel for the configuration dump,
    [NewServer] returns a server whose [queryResolver] is the
    client-annotation stage; following successor links from it visits, in
    this order, the client-annotation, query-logging,
    conditional-upstream, custom-DNS, blocking and caching stages, each
    built from its block of the configuration, and then the stage returned
    by [createParallelUpstreamResolver], which has no successor.  Both
    listeners route every zone to [OnRequest], and [OnRequest] hands each
    request to that head and to no other stage. *)
Theorem NewServer_fixed_stage_order (cfg : config.Config) (w : World)
    (fuel : nat) :
  let base := length (heap w) in
  let upstream := config.ExternalResolvers (config.Upstream_ cfg) in
  ∃ s w' terminal,
    NewServer (8 + fuel) cfg w = Returns (Some s, None) w' ∧
    queryResolver s = Some base ∧
    heap w' !! base =
      Some (ClientNamesResolver (config.ClientLookup cfg)
              (Some (base + 1))) ∧
    heap w' !! (base + 1) =
      Some (QueryLoggingResolver (config.QueryLog cfg) (Some (base + 2))) ∧
    heap w' !! (base + 2) =
      Some (ConditionalUpstreamResolver (config.Conditional cfg)
              (Some (base + 3))) ∧
    heap w' !! (base + 3) =
      Some (CustomDNSResolver (config.CustomDNS cfg) (Some (base + 4))) ∧
    heap w' !! (base + 4) =
      Some (BlockingResolver (config.Blocking cfg) (Some (base + 5))) ∧
    heap w' !! (base + 5) = Some (CachingResolver (Some terminal)) ∧
    heap w' !! terminal =
      Some (match upstream with
            | [u] => UpstreamResolver u
            | _ => ParallelBestResolver
                     (Some <$> seq (base + 6) (length upstream))
            end) ∧
    chain (heap w') (queryResolver s)
      [base; base + 1; base + 2; base + 3; base + 4; base + 5; terminal] ∧
    dns.Handler_ (udpServer s) !! "." = Some dns.HandlerOnRequest ∧
    dns.Handler_ (tcpServer s) !! "." = Some dns.HandlerOnRequest ∧
    ∀ wr request w1,
      resolveCalls (newEvents (OnRequest s wr request) w1) =
      [(base, requestFor wr request)].
Proof.
  intros base upstream.
  pose proof (NewServer_run cfg w fuel) as Hrun. simpl in Hrun.
  fold base upstream in Hrun.
  set (terminal := terminalLoc (base + 6) upstream) in *.
  pose proof (pipeline_chain cfg (heap w)) as Hchain. simpl in Hchain.
  fold base upstream terminal in Hchain.
  eexists _, _, terminal. split; [exact Hrun|]. simpl.
  split; [done|].
  split; [by apply list_lookup_middle|].
  do 5 (split; [by apply linkedStages_lookup|]).
  split; [apply terminal_stage_lookup|].
  split; [exact Hchain|].
  split; [apply lookup_insert_eq|]. split; [apply lookup_insert_eq|].
  intros wr request w1. by apply OnRequest_resolveCalls.
Qed.

(** C7: during assembly [NewServer] calls [Next] exactly six times, once
    on each of the six chainable stages and on no stage twice, and issues
    no [Resolve]; the link each chainable stage of the chain holds in the
    end is the one that call set.  The chain from the head has no
    repeated stage.  Neither [OnRequest] nor the configuration dump ever
    calls [Next] on the server so built, and the dump leaves the heap
    unchanged. *)
Theorem NewServer_links_each_stage_once (cfg : config.Config) (w : World)
    (fuel : nat) :
  let base := length (heap w) in
  ∃ s w' terminal,
    NewServer (8 + fuel) cfg w = Returns (Some s, None) w' ∧
    let path :=
      [base; base + 1; base + 2; base + 3; base + 4; base + 5; terminal] in
    let calls := nextCalls (newEvents (NewServer (8 + fuel) cfg) w) in
    chain (heap w') (queryResolver s) path ∧
    NoDup path ∧
    calls =
      [(base, Some (base + 1)); (base + 1, Some (base + 2));
       (base + 2, Some (base + 3)); (base + 3, Some (base + 4));
       (base + 4, Some (base + 5)); (base + 5, Some terminal)] ∧
    NoDup calls.*1 ∧
    (∀ l o next, l ∈ path → heap w' !! l = Some o →
       asChained o = Some next → (l, next) ∈ calls) ∧
    resolveCalls (newEvents (NewServer (8 + fuel) cfg) w) = [] ∧
    (∀ wr request w1,
       nextCalls (newEvents (OnRequest s wr request) w1) = []) ∧
    (∀ fuel1 w1,
       nextCalls (newEvents (printConfiguration fuel1 s) w1) = [] ∧
       ∀ w2, finalWorld (printConfiguration fuel1 s w1) = Some w2 →
             heap w2 = heap w1).
Proof.
  intros base.
  pose proof (NewServer_run cfg w fuel) as Hrun. cbv zeta in Hrun.
  fold base in Hrun.
  set (upstream := config.ExternalResolvers (config.Upstream_ cfg)) in *.
  set (terminal := terminalLoc (base + 6) upstream) in *.
  pose proof (pipeline_chain cfg (heap w)) as Hchain. simpl in Hchain.
  fold base upstream terminal in Hchain.
  pose proof (terminalLoc_ge (base + 6) upstream) as Hge.
  fold terminal in Hge.
  pose proof (terminal_stage_lookup cfg (heap w) (Some terminal) upstream)
    as Hterm.
  fold base terminal in Hterm.
  pose proof (stageLog_logs
    (heap w ++ linkedStages cfg base (Some terminal) ++
     terminalObjects (base + 6) upstream)
    (pipelinePath base terminal)) as Hlogs.
  apply (Forall_cons_2 _
    (EvLog logger logrus.Info "current configuration:")) in Hlogs;
    [|reflexivity].
  apply logs_no_calls in Hlogs as [Hnext Hresolve].
  eexists _, _, terminal. split; [exact Hrun|].
  cbv zeta. rewrite (newEvents_Returns _ _ _ _ _ Hrun).
  assert (nextCalls
    ([EvNext base (Some (base + 1)); EvNext (base + 1) (Some (base + 2));
      EvNext (base + 2) (Some (base + 3));
      EvNext (base + 3) (Some (base + 4));
      EvNext (base + 4) (Some (base + 5));
      EvNext (base + 5) (Some terminal)] ++
     EvLog logger logrus.Info "current configuration:"
     :: concat
          (stageLog
             (heap w ++ linkedStages cfg base (Some terminal) ++
              terminalObjects (base + 6) upstream) <$>
           pipelinePath base terminal)) =
    [(base, Some (base + 1)); (base + 1, Some (base + 2));
     (base + 2, Some (base + 3)); (base + 3, Some (base + 4));
     (base + 4, Some (base + 5)); (base + 5, Some terminal)]) as Hcalls.
  { unfold nextCalls in *. rewrite omap_app, Hnext. reflexivity. }
  rewrite Hcalls.
  split; [exact Hchain|].
  split; [by apply pipelinePath_NoDup|].
  split; [reflexivity|].
  split.
  { simpl. repeat (apply NoDup_cons; split;
                   [rewrite ?elem_of_cons, elem_of_nil; lia|]).
    apply NoDup_nil_2. }
  split.
  { intros l o next Hin Hl Ho. cbn [heap] in Hl.
    rewrite !elem_of_cons, elem_of_nil in Hin.
    destruct Hin as [->|[->|[->|[->|[->|[->|[->|[]]]]]]]].
    1: replace base with (base + 0) in Hl at 1 by lia.
    1-6: subst base;
         erewrite linkedStages_lookup in Hl by reflexivity;
         injection Hl as <-; injection Ho as <-;
         rewrite ?Nat.add_0_r; set_solver.
    assert (Some o = _) as Hot by (rewrite <- Hl; exact Hterm).
    injection Hot as ->. by destruct upstream as [|?[|??]]. }
  split.
  { unfold resolveCalls in *. rewrite omap_app, Hresolve. reflexivity. }
  split.
  - intros wr request w1. by apply OnRequest_no_links with (l := base).
  - intros fuel1 w1. apply printConfiguration_no_links.
Qed.




(** *** Further properties of [createParallelUpstreamResolver] *)

Lemma terminalObjects_length (base : loc) (upstream : list config.Upstream) :
  length (terminalObjects base upstream) = terminalCount upstream.
Proof.
  unfold terminalObjects, terminalCount.
  destruct (Nat.eqb_spec (length upstream) 1) as [E|_].
  - by rewrite length_fmap.
  - rewrite length_app, length_fmap. simpl. lia.
Qed.

Lemma terminalLoc_last (base : loc) (upstream : list config.Upstream) :
  S (terminalLoc base upstream) = base + terminalCount upstream.
Proof. unfold terminalLoc, terminalCount. case_match; lia. Qed.

(** X1: for every non-empty upstream list and every heap,
    [createParallelUpstreamResolver] returns normally a non-nil resolver:
    the stage it allocated last, which has no successor link.  It logs
    and links nothing, leaves every stage that was on the heap as it was,
    and allocates one stage for a single entry and one per entry plus one
    for more than one. *)
Theorem createParallelUpstreamResolver_fresh_terminal
    (upstream : list config.Upstream) (w : World) :
  upstream ≠ [] →
  ∃ r o w',
    createParallelUpstreamResolver upstream w = Returns (Some r) w' ∧
    events w' = events w ∧
    (∀ l o', heap w !! l = Some o' → heap w' !! l = Some o') ∧
    length (heap w') = length (heap w) + terminalCount upstream ∧
    S r = length (heap w') ∧
    heap w' !! r = Some o ∧
    asChained o = None.
Proof.
  intros _.
  eexists _, _, _. split; [apply createParallelUpstreamResolver_run|].
  simpl. split; [done|]. split; [|split; [|split; [|split]]].
  - intros l o' Hl. by apply lookup_app_l_Some.
  - by rewrite length_app, terminalObjects_length.
  - by rewrite length_app, terminalObjects_length, terminalLoc_last.
  - pose proof (terminalLoc_ge (length (heap w)) upstream) as Hge.
    rewrite lookup_app_r by done. apply terminalObjects_lookup.
  - by destruct upstream as [|?[|??]].
Qed.

(** X2: when the list has more than one entry, the returned stage is a
    parallel best-resolver with as many members as entries, none of them
    nil and no two of them the same stage; each member is an upstream
    resolver allocated by this call for one of the entries. *)
Theorem createParallelUpstreamResolver_members
    (upstream : list config.Upstream) (w : World) :
  1 < length upstream →
  ∃ r members w',
    createParallelUpstreamResolver upstream w = Returns (Some r) w' ∧
    heap w' !! r = Some (ParallelBestResolver members) ∧
    length members = length upstream ∧
    NoDup members ∧
    (∀ m, m ∈ members →
       ∃ l u, m = Some l ∧ (length (heap w) ≤ l < r)%nat ∧
              heap w' !! l = Some (UpstreamResolver u) ∧ u ∈ upstream).
Proof.
  intros Hlen.
  pose proof (createParallelUpstreamResolver_run upstream w) as Hrun.
  pose proof (terminalObjects_lookup (length (heap w)) upstream) as Hterm.
  unfold terminalLoc, terminalObjects in *.
  destruct (Nat.eqb_spec (length upstream) 1) as [E|_]; [lia|].
  eexists _, (Some <$> seq (length (heap w)) (length upstream)), _.
  split; [exact Hrun|]. simpl.
  split; [|split; [|split]].
  - rewrite lookup_app_r by lia. rewrite Hterm.
    destruct upstream as [|?[|??]]; simpl in Hlen; [lia|lia|done].
  - by rewrite length_fmap, length_seq.
  - apply NoDup_fmap_2; [apply _|apply NoDup_seq].
  - intros m Hm. apply list_elem_of_fmap in Hm as (l & -> & Hl).
    apply elem_of_seq in Hl.
    destruct (lookup_lt_is_Some_2 upstream (l - length (heap w)))
      as [u Hu]; [lia|].
    exists l, u. split; [done|]. split; [lia|]. split.
    + rewrite lookup_app_r by lia.
      rewrite lookup_app_l by (rewrite length_fmap; lia).
      by rewrite list_lookup_fmap, Hu.
    + by eapply list_elem_of_lookup_2.
Qed.


(** *** Further properties of the diagnostics walk *)

Lemma chain_functional (h : list Object) (res : Resolver)
    (p q : list loc) :
  chain h res p → chain h res q → p = q.
Proof.
  intros Hp. revert q.
  induction Hp as [|l o Hl Ho|l o next path Hl Ho Hp IH]; intros q Hq;
    inversion Hq as [|l' o' Hl' Ho'|l' o' next' path' Hl' Ho' Hq']; subst;
    try reflexivity; rewrite Hl in Hl'; injection Hl' as <-;
    try congruence.
  rewrite Ho in Ho'. injection Ho' as <-. f_equal. by apply IH.
Qed.

Lemma chain_suffix (h : list Object) (res : Resolver) (p : list loc) :
  chain h res p →
  ∀ p1 l p2, p = p1 ++ l :: p2 → chain h (Some l) (l :: p2).
Proof.
  induction 1 as [|l0 o Hl Ho|l0 o next path Hl Ho Hp IH];
    intros p1 l p2 Heq.
  - by destruct p1.
  - destruct p1 as [|? [|??]]; try discriminate Heq.
    injection Heq as -> <-. by eapply chain_last.
  - destruct p1 as [|l1 p1]; simpl in Heq.
    + injection Heq as -> ->. by eapply chain_link.
    + injection Heq as -> ->. by eapply IH.
Qed.

(** A finite chain visits no stage twice. *)
Lemma chain_NoDup (h : list Object) (res : Resolver) (p : list loc) :
  chain h res p → NoDup p.
Proof.
  induction 1 as [|l o Hl Ho|l o next path Hl Ho Hp IH].
  - apply NoDup_nil_2.
  - apply NoDup_singleton.
  - apply NoDup_cons. split; [|exact IH].
    intros Hin. apply list_elem_of_split in Hin as (p1 & p2 & ->).
    pose proof (chain_suffix _ _ _ Hp p1 l p2 eq_refl) as Hsub.
    pose proof (chain_link _ _ _ _ _ Hl Ho Hp) as Hfull.
    pose proof (chain_functional _ _ _ _ Hsub Hfull) as Heq.
    apply (f_equal length) in Heq. simpl in Heq.
    rewrite length_app in Heq. simpl in Heq. lia.
Qed.

Lemma chain_extend (h ext : list Object) (res : Resolver) (p : list loc) :
  chain h res p → chain (h ++ ext) res p.
Proof.
  induction 1 as [|l o Hl Ho|l o next path Hl Ho Hp IH].
  - apply chain_nil.
  - eapply chain_last; [by apply lookup_app_l_Some|done].
  - eapply chain_link; [by apply lookup_app_l_Some|done|done].
Qed.

Lemma printConfigurationFrom_Returns (fuel : nat) :
  ∀ (res : Resolver) (h : list Object) (evs : list Event) (w' : World),
    printConfigurationFrom fuel res {| heap := h; events := evs |} =
      Returns () w' →
    ∃ path,
      chain h res path ∧ (length path ≤ fuel)%nat ∧
      w' = {| heap := h; events := evs ++ concat (stageLog h <$> path) |}.
Proof.
  induction fuel as [|fuel IH]; intros res h evs w' Hrun;
    [discriminate Hrun|].
  destruct res as [l|]; simpl in Hrun.
  - revert Hrun. unfold load, getHeap. run.
    destruct (h !! l) as [o|] eqn:Hl; simpl; [|discriminate].
    rewrite (forRange_log logrus.Info (λ c, "     " +:+ c)).
    destruct (asChained o) as [next|] eqn:Ho; intros Hrun.
    + apply IH in Hrun as (path & Hchain & Hlen & ->).
      exists (l :: path). split; [by eapply chain_link|].
      split; [simpl; lia|]. simpl. by rewrite <- !app_assoc.
    + injection Hrun as <-. exists [l].
      split; [by eapply chain_last|]. split; [simpl; lia|].
      simpl. by rewrite app_nil_r, <- app_assoc.
  - injection Hrun as <-. exists []. split; [apply chain_nil|].
    split; [simpl; lia|]. simpl. by rewrite app_nil_r.
Qed.

(** X3: whenever the configuration dump returns, on whatever heap, the
    successor links from the head formed a finite chain no longer than the
    fuel spent, no stage of it was visited twice, the heap is as it was,
    and the lines logged are the header followed by the lines of each
    stage of that chain in order.  So where the links from the head lead
    into a cycle the dump never returns. *)
Theorem printConfiguration_returns_only_on_chain (fuel : nat) (s : Server)
    (w w' : World) :
  printConfiguration fuel s w = Returns () w' →
  ∃ path,
    chain (heap w) (queryResolver s) path ∧
    NoDup path ∧
    (length path ≤ fuel)%nat ∧
    heap w' = heap w ∧
    events w' = events w ++ dumpLog (heap w) path.
Proof.
  unfold printConfiguration. intros Hrun.
  apply bind_Returns_inv in Hrun as (? & w1 & Hlog & Hrun).
  rewrite log_run in Hlog. injection Hlog as _ <-.
  apply printConfigurationFrom_Returns in Hrun as (path & Hchain & Hlen & ->).
  exists path. split; [done|]. split; [by eapply chain_NoDup|].
  split; [done|]. split; [done|]. simpl. by rewrite <- app_assoc.
Qed.

Lemma printConfigurationFrom_info_lines (fuel : nat) :
  ∀ (res : Resolver) (w w' : World),
    finalWorld (printConfigurationFrom fuel res w) = Some w' →
    heap w' = heap w ∧
    ∃ evs, events w' = events w ++ evs ∧ Forall isInfoLine evs.
Proof.
  assert (∀ xs : list string,
            Forall isInfoLine
              ((λ c, EvLog logger logrus.Info ("     " +:+ c)) <$> xs))
    as Hlines.
  { intros xs. apply Forall_fmap, Forall_forall. intros c _. by eexists. }
  induction fuel as [|fuel IH]; intros res w w' Hfin; [discriminate Hfin|].
  destruct res as [l|]; simpl in Hfin.
  - revert Hfin. unfold load, getHeap. run.
    destruct (heap w !! l) as [o|] eqn:Hl; simpl.
    + destruct w as [h evs]. simpl in *.
      rewrite (forRange_log logrus.Info (λ c, "     " +:+ c)).
      destruct (asChained o) as [next|]; intros Hfin.
      * apply IH in Hfin as (Hh & evs' & Hev & Hlogs). simpl in *.
        split; [done|]. eexists. rewrite Hev, <- !app_assoc.
        split; [reflexivity|].
        constructor; [by eexists|]. apply Forall_app. by split.
      * injection Hfin as <-. simpl. split; [done|].
        eexists. rewrite <- !app_assoc. split; [reflexivity|].
        constructor; [by eexists|]. done.
    + intros [= <-]. split; [done|]. exists []. by rewrite app_nil_r.
  - injection Hfin as <-. split; [done|]. exists []. by rewrite app_nil_r.
Qed.

Lemma info_lines_no_calls (evs : list Event) :
  Forall isInfoLine evs →
  nextCalls evs = [] ∧ resolveCalls evs = [] ∧ writtenMsgs evs = [].
Proof.
  induction 1 as [|e evs [msg ->] _ (IH1 & IH2 & IH3)]; [done|]. done.
Qed.

(** X4: on every heap, chain or not, and with whatever fuel, the
    configuration dump only logs: wherever it ends (returning, or stopped
    by an invalid address) the heap is unchanged and everything it added
    to the trace is a line of the server's logger at Info level, so it
    never calls [Resolve] or [Next] and never writes to a peer. *)
Theorem printConfiguration_only_logs (fuel : nat) (s : Server)
    (w w' : World) :
  finalWorld (printConfiguration fuel s w) = Some w' →
  heap w' = heap w ∧
  events w' = events w ++ newEvents (printConfiguration fuel s) w ∧
  Forall isInfoLine (newEvents (printConfiguration fuel s) w) ∧
  nextCalls (newEvents (printConfiguration fuel s) w) = [] ∧
  resolveCalls (newEvents (printConfiguration fuel s) w) = [] ∧
  writtenMsgs (newEvents (printConfiguration fuel s) w) = [].
Proof.
  intros Hfin. unfold newEvents. rewrite Hfin. simpl.
  revert Hfin. unfold printConfiguration. run. intros Hfin.
  apply printConfigurationFrom_info_lines in Hfin
    as (Hh & evs' & Hev & Hlogs).
  simpl in *. rewrite Hev, <- app_assoc, drop_app_length.
  assert (Forall isInfoLine
            (EvLog logger logrus.Info "current configuration:" :: evs'))
    as Hall by (constructor; [by eexists|done]).
  split; [done|]. split; [done|]. split; [done|].
  by apply info_lines_no_calls.
Qed.


(** *** Further properties of assembly *)

Lemma printConfiguration_run (s : Server) (h : list Object)
    (path : list loc) (fuel : nat) (evs : list Event) :
  chain h (queryResolver s) path →
  length path < fuel →
  printConfiguration fuel s {| heap := h; events := evs |} =
  Returns () {| heap := h; events := evs ++ dumpLog h path |}.
Proof.
  intros Hchain Hfuel. unfold printConfiguration.
  erewrite bind_Returns by apply log_run.
  rewrite (printConfigurationFrom_chain _ _ _ Hchain) by done.
  by rewrite <- app_assoc.
Qed.

Lemma signalLoop_run (s : Server) (h : list Object) (path : list loc)
    (fuel : nat) (signals : list Signal) :
  chain h (queryResolver s) path →
  length path < fuel →
  ∀ evs,
    signalLoop fuel s signals {| heap := h; events := evs |} =
    Returns ()
      {| heap := h;
         events :=
           evs ++ concat (replicate (length signals) (dumpLog h path)) |}.
Proof.
  intros Hchain Hfuel. induction signals as [|[] signals IH]; intros evs.
  - simpl. run. by rewrite app_nil_r.
  - change (signalLoop fuel s (SIGUSR1 :: signals))
      with (printConfiguration fuel s ≫= λ _, signalLoop fuel s signals).
    erewrite bind_Returns by (by apply printConfiguration_run).
    rewrite IH. simpl. by rewrite <- app_assoc.
Qed.

Lemma chain_valid (h : list Object) (res : Resolver) (p : list loc) :
  chain h res p → ∀ l, l ∈ p → l < length h.
Proof.
  induction 1 as [|l o Hl Ho|l o next path Hl Ho Hp IH]; intros l' Hin.
  - by apply elem_of_nil in Hin.
  - apply list_elem_of_singleton in Hin as ->. by eapply lookup_lt_Some.
  - apply elem_of_cons in Hin as [->|Hin]; [by eapply lookup_lt_Some|].
    by apply IH.
Qed.

(** X5: [NewServer] only adds to the heap.  Every stage that was there
    keeps its address and its contents, every chain that was there is
    still a chain, and the heap grows by the six policy and caching
    stages plus what [createParallelUpstreamResolver] allocates; the
    trace it found is a prefix of the trace it leaves. *)
Theorem NewServer_leaves_existing_stages (cfg : config.Config) (w : World)
    (fuel : nat) :
  ∃ s w',
    NewServer (8 + fuel) cfg w = Returns (Some s, None) w' ∧
    (∀ l o, heap w !! l = Some o → heap w' !! l = Some o) ∧
    (∀ res path, chain (heap w) res path → chain (heap w') res path) ∧
    length (heap w') =
      length (heap w) + 6 +
      terminalCount (config.ExternalResolvers (config.Upstream_ cfg)) ∧
    events w' = events w ++ newEvents (NewServer (8 + fuel) cfg) w.
Proof.
  pose proof (NewServer_run cfg w fuel) as Hrun. cbv zeta in Hrun.
  eexists _, _. split; [exact Hrun|].
  rewrite (newEvents_Returns _ _ _ _ _ Hrun). simpl.
  split; [|split; [|split]].
  - intros l o Hl. by apply lookup_app_l_Some.
  - intros res path Hchain. by apply chain_extend.
  - rewrite length_app. simpl. rewrite terminalObjects_length. lia.
  - reflexivity.
Qed.

(** X6: what [NewServer] adds to the trace is its six [Next] calls
    followed by one configuration dump, and every later dump on the world
    it leaves (given fuel for the seven stages) logs exactly the lines of
    that startup dump again; the signal goroutine logs them once per
    signal received. *)
Theorem NewServer_dump_repeats (cfg : config.Config) (w : World)
    (fuel : nat) :
  ∃ s w' dump,
    NewServer (8 + fuel) cfg w = Returns (Some s, None) w' ∧
    newEvents (NewServer (8 + fuel) cfg) w =
      ((λ c, EvNext c.1 c.2) <$>
         nextCalls (newEvents (NewServer (8 + fuel) cfg) w)) ++ dump ∧
    length (nextCalls (newEvents (NewServer (8 + fuel) cfg) w)) = 6 ∧
    Forall isInfoLine dump ∧
    (∀ fuel1, newEvents (printConfiguration (8 + fuel1) s) w' = dump) ∧
    (∀ fuel1 signals,
       newEvents (signalLoop (8 + fuel1) s signals) w' =
       concat (replicate (length signals) dump)).
Proof.
  pose proof (NewServer_run cfg w fuel) as Hrun. cbv zeta in Hrun.
  pose proof (pipeline_chain cfg (heap w)) as Hchain. cbv zeta in Hchain.
  set (base := length (heap w)) in *.
  set (upstream := config.ExternalResolvers (config.Upstream_ cfg)) in *.
  set (terminal := terminalLoc (base + 6) upstream) in *.
  set (h' := heap w ++ linkedStages cfg base (Some terminal) ++
             terminalObjects (base + 6) upstream) in *.
  assert (Forall isInfoLine (dumpLog h' (pipelinePath base terminal)))
    as Hinfo.
  { constructor; [by eexists|].
    generalize (pipelinePath base terminal). intros p.
    induction p as [|l p IH]; simpl; [constructor|].
    constructor; [by eexists|]. apply Forall_app. split; [|exact IH].
    apply Forall_fmap, Forall_forall. intros c _. by eexists. }
  pose proof (info_lines_no_calls _ Hinfo) as (Hnext & _ & _).
  eexists _, _, (dumpLog h' (pipelinePath base terminal)).
  split; [exact Hrun|].
  rewrite (newEvents_Returns _ _ _ _ _ Hrun).
  unfold nextCalls in *. rewrite omap_app. fold (dumpLog h' (pipelinePath base terminal)).
  rewrite Hnext. simpl.
  split; [reflexivity|]. split; [reflexivity|]. split; [exact Hinfo|].
  split.
  - intros fuel1. eapply newEvents_Returns.
    apply printConfiguration_run; [exact Hchain|simpl; lia].
  - intros fuel1 signals. eapply newEvents_Returns.
    apply signalLoop_run; [exact Hchain|simpl; lia].
Qed.

(** X7: the server [NewServer] returns has a UDP and a TCP listener on
    the same address, a colon followed by the configured port in decimal,
    whatever the rest of the configuration and the heap are; the UDP
    listener takes messages of up to 65535 bytes; and each listener's mux
    holds one pattern only, the root zone, handled by [OnRequest]. *)
Theorem NewServer_listeners (cfg : config.Config) (w : World) (fuel : nat) :
  ∃ s w',
    NewServer (8 + fuel) cfg w = Returns (Some s, None) w' ∧
    dns.Addr (udpServer s) = ":" +:+ pretty (config.Port cfg) ∧
    dns.Addr (tcpServer s) = dns.Addr (udpServer s) ∧
    dns.Net (udpServer s) = "udp" ∧
    dns.Net (tcpServer s) = "tcp" ∧
    dns.UDPSize (udpServer s) = 65535%Z ∧
    (∀ pattern,
       dns.Handler_ (udpServer s) !! pattern =
         (if decide (pattern = ".") then Some dns.HandlerOnRequest
          else None) ∧
       dns.Handler_ (tcpServer s) !! pattern =
         dns.Handler_ (udpServer s) !! pattern).
Proof.
  pose proof (NewServer_run cfg w fuel) as Hrun. cbv zeta in Hrun.
  eexists _, _. split; [exact Hrun|]. simpl.
  repeat (split; [reflexivity|]).
  intros pattern. split; [|reflexivity].
  unfold dns.HandleFunc, dns.NewServeMux.
  rewrite lookup_insert. repeat case_decide; try done.
Qed.

(** X8: two servers built one after the other do not share a stage: the
    pipeline of the first is still the same chain after the second was
    built, and no stage of the second pipeline lies on it. *)
Theorem NewServer_twice_disjoint (cfg1 cfg2 : config.Config) (w : World)
    (fuel1 fuel2 : nat) :
  ∃ s1 w1 s2 w2 path1 path2,
    NewServer (8 + fuel1) cfg1 w = Returns (Some s1, None) w1 ∧
    NewServer (8 + fuel2) cfg2 w1 = Returns (Some s2, None) w2 ∧
    chain (heap w1) (queryResolver s1) path1 ∧
    chain (heap w2) (queryResolver s1) path1 ∧
    chain (heap w2) (queryResolver s2) path2 ∧
    length path1 = 7 ∧ length path2 = 7 ∧
    (∀ l, l ∈ path1 → l ∉ path2).
Proof.
  pose proof (NewServer_run cfg1 w fuel1) as Hrun1. cbv zeta in Hrun1.
  pose proof (pipeline_chain cfg1 (heap w)) as Hchain1.
  cbv zeta in Hchain1.
  eexists _, _. 
  match type of Hrun1 with _ = Returns _ ?w1 =>
    pose proof (NewServer_run cfg2 w1 fuel2) as Hrun2;
    pose proof (pipeline_chain cfg2 (heap w1)) as Hchain2
  end.
  cbv zeta in Hrun2, Hchain2.
  eexists _, _, _, _.
  split; [exact Hrun1|]. split; [exact Hrun2|].
  split; [exact Hchain1|].
  split; [apply chain_extend; exact Hchain1|].
  split; [exact Hchain2|].
  split; [reflexivity|]. split; [reflexivity|].
  intros l Hin1 Hin2.
  apply (chain_valid _ _ _ Hchain1) in Hin1.
  cbn [heap] in Hin2.
  pose proof (terminalLoc_ge
    (length
       (heap w ++
        linkedStages cfg1 (length (heap w))
          (Some (terminalLoc (length (heap w) + 6)
                   (config.ExternalResolvers (config.Upstream_ cfg1)))) ++
        terminalObjects (length (heap w) + 6)
          (config.ExternalResolvers (config.Upstream_ cfg1))) + 6)
    (config.ExternalResolvers (config.Upstream_ cfg2))) as Hge.
  unfold pipelinePath in Hin2.
  rewrite !elem_of_cons, elem_of_nil in Hin2.
  lia.
Qed.


(** *** Shutdown *)

(** X9: [Stop] logs that it is stopping and asks the UDP listener to
    shut down first.  If that fails the process exits with status 1 after
    a fatal line naming the listener's transport and the error, and the
    TCP listener is never asked; otherwise the TCP listener is asked
    next, and a failure there exits the same way.  [Stop] returns exactly
    when both shutdowns succeed, and then nothing fatal was logged. *)
Theorem Stop_short_circuits (udpErr tcpErr : option string) (s : Server) :
  let trace := (Stop udpErr tcpErr s).1 in
  let outcome := (Stop udpErr tcpErr s).2 in
  head trace = Some (StopInfo logger "Stopping server") ∧
  (outcome = StopReturns ↔ udpErr = None ∧ tcpErr = None) ∧
  (outcome = StopReturns ∨ outcome = StopExits 1) ∧
  (∀ e, udpErr = Some e →
     shutdowns trace = [udpServer s] ∧
     last trace =
       Some (StopFatal logger
               ("stop " +:+ dns.Net (udpServer s) +:+
                " listener failed: " +:+ e))) ∧
  (udpErr = None → shutdowns trace = [udpServer s; tcpServer s]) ∧
  (∀ e, udpErr = None → tcpErr = Some e →
     last trace =
       Some (StopFatal logger
               ("stop " +:+ dns.Net (tcpServer s) +:+
                " listener failed: " +:+ e))) ∧
  (udpErr = None → tcpErr = None →
     ∀ fields msg, StopFatal fields msg ∉ trace).
Proof.
  unfold Stop, shutdownOrExit.
  destruct udpErr as [eu|], tcpErr as [et|]; simpl;
    (split; [reflexivity|]);
    (split; [split; [try discriminate; done | intros [??]; try discriminate; done]|]);
    (split; [auto|]);
    (split; [intros e He; try discriminate He; injection He as <-; done|]);
    (split; [intros He; try discriminate He; done|]);
    (split; [intros e He1 He2; try discriminate He1; try discriminate He2;
             injection He2 as <-; done|]);
    intros He1 He2; try discriminate He1; try discriminate He2.
  intros fields msg Hin.
  rewrite !elem_of_cons, elem_of_nil in Hin.
  destruct Hin as [?|[?|[?|[]]]]; discriminate.
Qed.

(** *** Further properties of the request boundary *)

Lemma OnRequest_nil_head (s : Server) (wr : dns.ResponseWriter)
    (request : dns.Msg) (w : World) :
  queryResolver s = None →
  OnRequest s wr request w =
  Panics "nil pointer dereference"
    {| heap := heap w;
       events := events w ++ [EvLog logger logrus.Debug "new request"] |}.
Proof. intros Hs. unfold OnRequest, callResolve. by rewrite Hs. Qed.

(** The four ways [OnRequest] can go. *)
Lemma OnRequest_cases (s : Server) (wr : dns.ResponseWriter)
    (request : dns.Msg) (w : World) :
  (queryResolver s = None ∧
   (∃ w', OnRequest s wr request w = Panics "nil pointer dereference" w') ∧
   newEvents (OnRequest s wr request) w =
     [EvLog logger logrus.Debug "new request"])
  ∨
  (∃ l response e,
     queryResolver s = Some l ∧
     Resolve (heap w) l (requestFor wr request) = (response, Some e) ∧
     (∃ w', OnRequest s wr request w = Returns () w') ∧
     newEvents (OnRequest s wr request) w =
       requestPrefix l wr request ++
       [EvLog logger logrus.Error ("error on processing request: " +:+ e);
        EvWriteMsg (failureReply request)])
  ∨
  (∃ l response,
     queryResolver s = Some l ∧
     Resolve (heap w) l (requestFor wr request) = (response, None) ∧
     response ≫= Res = None ∧
     (∃ w', OnRequest s wr request w =
            Panics "nil pointer dereference" w') ∧
     newEvents (OnRequest s wr request) w = requestPrefix l wr request)
  ∨
  (∃ l response res,
     queryResolver s = Some l ∧
     Resolve (heap w) l (requestFor wr request) = (Some response, None) ∧
     Res response = Some res ∧
     (∃ w', OnRequest s wr request w = Returns () w') ∧
     newEvents (OnRequest s wr request) w =
       requestPrefix l wr request ++
       EvWriteMsg (mirrorRecursion request res)
       :: match dns.WriteMsgErr wr with
          | Some e =>
              [EvLog logger logrus.Error ("can't write message: " +:+ e)]
          | None => []
          end).
Proof.
  destruct (queryResolver s) as [l|] eqn:Hs.
  - right.
    pose proof (OnRequest_run s wr request w l Hs) as Hrun.
    cbv zeta in Hrun.
    destruct (Resolve (heap w) l (requestFor wr request))
      as [response [e|]] eqn:Hres.
    + left. exists l, response, e.
      assert (OnRequest s wr request w =
              Returns ()
                {| heap := heap w;
                   events :=
                     events w ++
                     requestPrefix l wr request ++
                     [EvLog logger logrus.Error
                        ("error on processing request: " +:+ e);
                      EvWriteMsg (failureReply request)] |}) as Hrun'
        by (rewrite Hrun; destruct response; by rewrite <- app_assoc).
      repeat (split; [done|]).
      split; [by eexists|]. by eapply newEvents_Returns.
    + right. destruct response as [response|];
        [destruct (Res response) as [res|] eqn:Hmsg|].
      * right. exists l, response, res.
        rewrite <- app_assoc in Hrun.
        repeat (split; [done|]).
        split; [by eexists|]. by eapply newEvents_Returns.
      * left. exists l, (Some response).
        repeat (split; [done|]).
        split; [by eexists|]. by eapply newEvents_Panics.
      * left. exists l, None.
        repeat (split; [done|]).
        split; [by eexists|]. by eapply newEvents_Panics.
  - left. pose proof (OnRequest_nil_head s wr request w Hs) as Hrun.
    split; [done|]. split; [by eexists|]. by eapply newEvents_Panics.
Qed.


(** X10: every request ends in one of two ways.  Either [OnRequest]
    returns and has handed exactly one message to the response writer, or
    it stops in a nil dereference and has handed it none.  It asks the
    pipeline at most once, and in neither case does it close the
    connection or touch a successor link. *)
Theorem OnRequest_one_reply_or_crash (s : Server) (wr : dns.ResponseWriter)
    (request : dns.Msg) (w : World) :
  let added := newEvents (OnRequest s wr request) w in
  ((∃ w' m, OnRequest s wr request w = Returns () w' ∧
            writtenMsgs added = [m])
   ∨
   (∃ w', OnRequest s wr request w = Panics "nil pointer dereference" w' ∧
          writtenMsgs added = [])) ∧
  (length (resolveCalls added) ≤ 1)%nat ∧
  nextCalls added = [] ∧
  (EvClose ∉ added).
Proof.
  cbv zeta.
  destruct (OnRequest_cases s wr request w)
    as [(Hs & [w' Hrun] & Hev)
       |[(l & response & e & Hs & Hres & [w' Hrun] & Hev)
        |[(l & response & Hs & Hres & Hnil & [w' Hrun] & Hev)
         |(l & response & res & Hs & Hres & Hmsg & [w' Hrun] & Hev)]]];
    rewrite Hev; unfold requestPrefix.
  - split; [right; by exists w'|]. split; [simpl; lia|]. split; [done|].
    rewrite !elem_of_cons, elem_of_nil. intros [?|[]]; discriminate.
  - split; [left; by exists w', (failureReply request)|].
    split; [simpl; lia|]. split; [done|].
    simpl. rewrite !elem_of_cons, elem_of_nil.
    intros [?|[?|[?|[?|[]]]]]; discriminate.
  - split; [right; by exists w'|]. split; [simpl; lia|]. split; [done|].
    rewrite !elem_of_cons, elem_of_nil. intros [?|[?|[]]]; discriminate.
  - split; [left; exists w', (mirrorRecursion request res);
            by destruct (dns.WriteMsgErr wr)|].
    split; [by destruct (dns.WriteMsgErr wr); simpl; lia|].
    split; [by destruct (dns.WriteMsgErr wr)|].
    simpl. destruct (dns.WriteMsgErr wr);
      rewrite !elem_of_cons, elem_of_nil; intros H2;
      repeat (destruct H2 as [H2|H2]; [discriminate H2|]); done.
Qed.

(** X11: two situations in which [OnRequest] stops in a nil dereference.
    When the server has no pipeline head it stops before the pipeline is
    asked.  When the pipeline returns a nil error together with a nil
    response or a response without a message it stops after that one
    call.  Whenever it stops like this the peer gets no reply at all, not
    even the failure reply. *)
Theorem OnRequest_nil_dereferences (s : Server) (wr : dns.ResponseWriter)
    (request : dns.Msg) (w : World) :
  let added := newEvents (OnRequest s wr request) w in
  (queryResolver s = None →
     ∃ w', OnRequest s wr request w = Panics "nil pointer dereference" w' ∧
           resolveCalls added = [] ∧
           writtenMsgs added = []) ∧
  (∀ l response,
     queryResolver s = Some l →
     Resolve (heap w) l (requestFor wr request) = (response, None) →
     response ≫= Res = None →
     ∃ w', OnRequest s wr request w = Panics "nil pointer dereference" w' ∧
           resolveCalls added = [(l, requestFor wr request)] ∧
           writtenMsgs added = []) ∧
  (∀ reason w',
     OnRequest s wr request w = Panics reason w' →
     reason = "nil pointer dereference" ∧ writtenMsgs added = []).
Proof.
  cbv zeta.
  destruct (OnRequest_cases s wr request w)
    as [(Hs & [w' Hrun] & Hev)
       |[(l & response & e & Hs & Hres & [w' Hrun] & Hev)
        |[(l & response & Hs & Hres & Hnil & [w' Hrun] & Hev)
         |(l & response & res & Hs & Hres & Hmsg & [w' Hrun] & Hev)]]];
    rewrite Hev, Hrun; unfold requestPrefix;
    (split; [|split]).
  - intros _. by exists w'.
  - intros l response Hs'. congruence.
  - by intros ?? [= <- _].
  - intros Hs'. congruence.
  - intros l' response' Hs' Hres'. congruence.
  - by intros ?? ?.
  - intros Hs'. congruence.
  - intros l' response' Hs' Hres' _.
    rewrite Hs in Hs'. injection Hs' as <-. by exists w'.
  - by intros ?? [= <- _].
  - intros Hs'. congruence.
  - intros l' response' Hs' Hres' Hnil'.
    rewrite Hs in Hs'. injection Hs' as <-.
    rewrite Hres in Hres'. injection Hres' as <-.
    simpl in Hnil'. congruence.
  - by intros ?? ?.
Qed.

(** X12: an error of the transport on the write changes nothing but one
    log line.  With or without it [OnRequest] hands the same request to
    the pipeline and the same single message to the writer (no second
    attempt, and no failure reply after a failed answer) and ends the
    same way.  After a failed answer its trace is the trace of the run
    without the error followed by exactly one Error line carrying the
    error; in every other case, a failed failure reply included, the two
    traces are equal. *)
Theorem OnRequest_write_error_only_logged (s : Server)
    (wr : dns.ResponseWriter) (request : dns.Msg) (w : World) :
  let wr0 :=
    {| dns.RemoteAddr := dns.RemoteAddr wr; dns.WriteMsgErr := None |} in
  let added := newEvents (OnRequest s wr request) w in
  let added0 := newEvents (OnRequest s wr0 request) w in
  writtenMsgs added = writtenMsgs added0 ∧
  resolveCalls added = resolveCalls added0 ∧
  ((∃ w', OnRequest s wr request w = Returns () w') ↔
   (∃ w', OnRequest s wr0 request w = Returns () w')) ∧
  added =
    added0 ++
    match dns.WriteMsgErr wr, queryResolver s with
    | Some e, Some l =>
        match Resolve (heap w) l (requestFor wr request) with
        | (Some response, None) =>
            match Res response with
            | Some _ =>
                [EvLog logger logrus.Error ("can't write message: " +:+ e)]
            | None => []
            end
        | _ => []
        end
    | _, _ => []
    end.
Proof.
  cbv zeta.
  set (wr0 := {| dns.RemoteAddr := dns.RemoteAddr wr;
                 dns.WriteMsgErr := None |}).
  destruct (OnRequest_cases s wr request w)
    as [(Hs & [w' Hrun] & Hev)
       |[(l & response & e & Hs & Hres & [w' Hrun] & Hev)
        |[(l & response & Hs & Hres & Hnil & [w' Hrun] & Hev)
         |(l & response & res & Hs & Hres & Hmsg & [w' Hrun] & Hev)]]];
    destruct (OnRequest_cases s wr0 request w)
      as [(Hs0 & [w0 Hrun0] & Hev0)
         |[(l0 & response0 & e0 & Hs0 & Hres0 & [w0 Hrun0] & Hev0)
          |[(l0 & response0 & Hs0 & Hres0 & Hnil0 & [w0 Hrun0] & Hev0)
           |(l0 & response0 & res0 & Hs0 & Hres0 & Hmsg0 & [w0 Hrun0]
             & Hev0)]]];
    change (requestFor wr0 request) with (requestFor wr request) in *;
    change (requestPrefix ?l wr0 request)
      with (requestPrefix l wr request) in *;
    try congruence;
    try (rewrite Hs in Hs0); simplify_eq;
    try (rewrite Hres in Hres0); simplify_eq;
    try (rewrite Hmsg in Hmsg0); simplify_eq;
    try (cbn in Hnil; congruence); try (cbn in Hnil0; congruence);
    rewrite Hev, Hev0, Hrun, Hrun0, Hs, ?Hres.
  - split; [done|]. split; [done|].
    split; [split; by intros [? ?]|].
    destruct (dns.WriteMsgErr wr); by rewrite app_nil_r.
  - split; [done|]. split; [done|].
    split; [split; intros _; by eexists|].
    destruct (dns.WriteMsgErr wr), response0; by rewrite app_nil_r.
  - split; [done|]. split; [done|].
    split; [split; by intros [? ?]|].
    destruct (dns.WriteMsgErr wr), response0 as [response0|];
      try (by rewrite app_nil_r).
    cbn in Hnil. rewrite Hnil. by rewrite app_nil_r.
  - rewrite Hmsg. simpl dns.WriteMsgErr. unfold requestPrefix.
    destruct (dns.WriteMsgErr wr) as [e|] eqn:Herr; simpl.
    + split; [done|]. split; [done|].
      split; [split; intros _; by eexists|]. done.
    + split; [done|]. split; [done|].
      split; [split; intros _; by eexists|]. done.
Qed.

End Properties.

(** ** The statements at concrete inputs *)
Import sample.

Lemma createParallelUpstreamResolver_terminal_witness :
  (∃ u, oneUpstream = [u] ∧
     createParallelUpstreamResolver oneUpstream world0 =
     Returns (Some 0)
       {| heap := [UpstreamResolver u]; events := [] |}) ∧
  (∃ members w',
     createParallelUpstreamResolver upstreams world0 =
       Returns (Some 2) w' ∧
     events w' = [] ∧
     heap w' =
       (UpstreamResolver <$> upstreams) ++ [ParallelBestResolver members] ∧
     heap w' !! 2 = Some (ParallelBestResolver members) ∧
     length members = 2 ∧
     ∀ i u, upstreams !! i = Some u →
       members !! i = Some (Some i) ∧
       heap w' !! i = Some (UpstreamResolver u)).
Proof.
  split.
  - apply (proj1 (createParallelUpstreamResolver_terminal
                    oneUpstream world0)).
    reflexivity.
  - apply (proj2 (createParallelUpstreamResolver_terminal
                    upstreams world0)).
    simpl. lia.
Defined.

Lemma OnRequest_mirrors_recursion_desired_witness :
  ∃ w' sent,
    OnRequest server udpWriter (query true [exampleQuestion]) started =
      Returns () w' ∧
    writtenMsgs
      (newEvents
         (OnRequest server udpWriter (query true [exampleQuestion]))
         started) = [sent] ∧
    dns.RecursionAvailable (dns.Hdr sent) = true.
Proof.
  edestruct (OnRequest_mirrors_recursion_desired server udpWriter
               (query true [exampleQuestion]) started 0)
    as (w' & sent & Hrun & Hsent & Hra & _);
    [reflexivity|reflexivity|reflexivity|].
  exists w', sent. split; [exact Hrun|]. split; [exact Hsent|]. exact Hra.
Defined.

Lemma OnRequest_answers_failure_witness :
  ∃ w',
    OnRequest server tcpWriter (query true []) started = Returns () w' ∧
    writtenMsgs (newEvents (OnRequest server tcpWriter (query true []))
                   started) =
      [failureReply (query true [])] ∧
    dns.Rcode (dns.Hdr (failureReply (query true []))) = 2%Z.
Proof.
  edestruct (OnRequest_answers_failure server tcpWriter (query true [])
               started 0)
    as (w' & Hrun & _ & _ & Hsent & _ & Hrcode & _);
    [reflexivity|reflexivity|].
  exists w'. split; [exact Hrun|]. split; [exact Hsent|]. exact Hrcode.
Defined.

Lemma OnRequest_changes_only_recursion_available_witness :
  ∃ sent,
    writtenMsgs
      (newEvents
         (OnRequest server tcpWriter (query false [exampleQuestion]))
         started) = [sent] ∧
    dns.Id (dns.Hdr sent) = 4711%Z ∧
    dns.Answer sent = [answerA exampleQuestion].
Proof.
  edestruct (OnRequest_changes_only_recursion_available server tcpWriter
               (query false [exampleQuestion]) started 0)
    as (sent & Hsent & Hid & H); [reflexivity|reflexivity|reflexivity|].
  exists sent. split; [exact Hsent|]. split; [exact Hid|].
  apply H.
Defined.

Lemma OnRequest_client_ip_from_peer_witness :
  (∃ r,
     resolveCalls
       (newEvents (OnRequest server udpWriter (query true [exampleQuestion]))
          started) = [(0, r)] ∧
     ClientIP r = Some [Byte.xc0; Byte.xa8; Byte.x00; Byte.x07]) ∧
  (∃ r,
     resolveCalls
       (newEvents (OnRequest server tcpWriter (query true [exampleQuestion]))
          started) = [(0, r)] ∧
     ClientIP r = Some [Byte.x0a; Byte.x00; Byte.x00; Byte.x02]).
Proof.
  split.
  - edestruct (OnRequest_client_ip_from_peer server udpWriter
                 (query true [exampleQuestion]) started 0
                 (Some [Byte.xc0; Byte.xa8; Byte.x00; Byte.x07]) 40000 "")
      as (_ & r & Hcall & Hip & _); [reflexivity|left; reflexivity|].
    exists r. split; [exact Hcall|exact Hip].
  - edestruct (OnRequest_client_ip_from_peer server tcpWriter
                 (query true [exampleQuestion]) started 0
                 (Some [Byte.x0a; Byte.x00; Byte.x00; Byte.x02]) 51000 "")
      as (_ & r & Hcall & Hip & _); [reflexivity|right; reflexivity|].
    exists r. split; [exact Hcall|exact Hip].
Defined.

Lemma OnRequest_unknown_peer_nil_ip_witness :
  resolveClientIP (dns.RemoteAddr unixWriter) = None ∧
  ∃ r,
    resolveCalls
      (newEvents (OnRequest server unixWriter (query true [exampleQuestion]))
         started) = [(0, r)] ∧
    ClientIP r = None ∧
    Req r = query true [exampleQuestion].
Proof.
  apply (OnRequest_unknown_peer_nil_ip server unixWriter
           (query true [exampleQuestion]) started 0).
  - reflexivity.
  - intros ip port zone. discriminate.
  - intros ip port zone. discriminate.
Defined.

Lemma printConfiguration_walks_chain_witness :
  printConfiguration 9 server started =
  Returns ()
    {| heap := heap started;
       events :=
         events started ++
         EvLog logger logrus.Info "current configuration:"
         :: concat (stageLog (heap started) <$> [0; 1; 2; 3; 4; 5; 8]) |}.
Proof.
  apply (proj1 (printConfiguration_walks_chain server started
                  [0; 1; 2; 3; 4; 5; 8]
                  ltac:(repeat (eapply chain_link;
                                [reflexivity|reflexivity|]);
                        eapply chain_last; reflexivity))).
  simpl. lia.
Defined.



Lemma createParallelUpstreamResolver_members_witness :
  ∃ r members w',
    createParallelUpstreamResolver upstreams world0 = Returns (Some r) w' ∧
    heap w' !! r = Some (ParallelBestResolver members) ∧
    length members = 2 ∧
    NoDup members.
Proof.
  edestruct (createParallelUpstreamResolver_members upstreams world0)
    as (r & members & w' & Hrun & Hr & Hlen & Hnodup & _);
    [simpl; lia|].
  exists r, members, w'.
  split; [exact Hrun|]. split; [exact Hr|]. split; [exact Hlen|].
  exact Hnodup.
Defined.

Lemma printConfiguration_returns_only_on_chain_witness :
  ∃ path,
    chain (heap started) (queryResolver server) path ∧
    NoDup path ∧
    (length path ≤ 9)%nat.
Proof.
  destruct (printConfiguration_returns_only_on_chain 9 server started dumped)
    as (path & Hchain & Hnodup & Hlen & _); [vm_compute; reflexivity|].
  exists path. split; [exact Hchain|]. split; [exact Hnodup|]. exact Hlen.
Defined.

Lemma printConfiguration_only_logs_witness :
  heap dumped = heap started ∧
  nextCalls (newEvents (printConfiguration 9 server) started) = [] ∧
  writtenMsgs (newEvents (printConfiguration 9 server) started) = [].
Proof.
  destruct (printConfiguration_only_logs 9 server started dumped)
    as (Hheap & _ & _ & Hnext & _ & Hsent); [vm_compute; reflexivity|].
  split; [exact Hheap|]. split; [exact Hnext|exact Hsent].
Defined.

Lemma createParallelUpstreamResolver_fresh_terminal_witness :
  ∃ r o w',
    createParallelUpstreamResolver oneUpstream world0 =
      Returns (Some r) w' ∧
    S r = length (heap w') ∧
    heap w' !! r = Some o ∧
    asChained o = None.
Proof.
  edestruct (createParallelUpstreamResolver_fresh_terminal
               oneUpstream world0)
    as (r & o & w' & Hrun & _ & _ & _ & Hlast & Hr & Ho);
    [discriminate|].
  exists r, o, w'.
  split; [exact Hrun|]. split; [exact Hlast|]. split; [exact Hr|exact Ho].
Defined.

Lemma OnRequest_nil_dereferences_witness :
  ∃ w',
    OnRequest (servingOn 53 None) udpWriter (query true [exampleQuestion])
      started = Panics "nil pointer dereference" w' ∧
    resolveCalls
      (newEvents
         (OnRequest (servingOn 53 None) udpWriter
            (query true [exampleQuestion])) started) = [] ∧
    writtenMsgs
      (newEvents
         (OnRequest (servingOn 53 None) udpWriter
            (query true [exampleQuestion])) started) = [].
Proof.
  apply (proj1 (OnRequest_nil_dereferences (servingOn 53 None) udpWriter
                  (query true [exampleQuestion]) started)).
  reflexivity.
Defined.
